(** * wallets_scan_sol: the token analysis pipeline

    A shallow embedding of [app/models.py], [app/helius_client.py],
    [app/storage.py] and [app/detector.py], and the properties of the
    pipeline proved over it.

    Conventions of the embedding.
    - A Python [int] is a [Z]; [len(l)] is [Z.of_nat (length l)].
    - A Python [float] is the rational it denotes ([Q]); the one float
      operation of the pipeline, the true division of two ints, rounds its
      exact quotient with [rnd] (section [Pipeline]).
    - A Python [str] is a [string]; [None] of an [Optional] is [None].
    - An exception is a value of [exn]; code that may raise returns
      [res A = exn + A], code that also reads or writes files or the
      storage object's cache is a state transformer [IO A].
    - Calls to [logger] only write to the process log; they are left out.
    - [async]/[await]: a coroutine that runs alone is its sequential code;
      the suspension point of [Storage.add_transaction] between reading
      and writing the file is kept as its two phases [add_transaction_read]
      and [add_transaction_write], and [run] schedules the steps of two
      coroutines of the same event loop. *)

From Stdlib Require Import ZArith QArith Lqa String Ascii List Lia.
From stdpp Require Import gmap strings list.

Local Open Scope Z_scope.
Local Open Scope string_scope.
Local Open Scope list_scope.

(** ** Python values *)

(** What [json.loads] / [response.json()] return, and the values of the
    fields typed [Any] or [Dict]. *)
#[warnings="-register-all"]
Inductive json : Type :=
| JNull
| JBool (b : bool)
| JInt (n : Z)
| JFloat (q : Q)
| JStr (s : string)
| JList (l : list json)
| JDict (d : gmap string json).

(** Truth value of a Python object, as [or], [not] and [if] test it. *)
Definition truthy (v : json) : bool :=
  match v with
  | JNull => false
  | JBool b => b
  | JInt n => negb (n =? 0)%Z
  | JFloat q => negb (Qeq_bool q 0%Q)
  | JStr s => negb (String.eqb s "")
  | JList l => match l with [] => false | _ => true end
  | JDict d => negb (bool_decide (d = ∅))
  end.

(** Truth value of a [str]: the empty string is false. *)
Definition str_truthy (s : string) : bool := negb (String.eqb s "").

(** ** Exceptions *)

Inductive exn : Type :=
| OSError
| AttributeError
| TypeError
| ValidationError
| JSONDecodeError
| HTTPStatusError (status_code : Z)
| RequestError.

(** Subclasses of [Exception], which [except Exception] catches; all of
    the above are. *)
Definition is_Exception (e : exn) : bool := true.

Definition res (A : Type) : Type := (exn + A)%type.

Definition res_ret {A} (a : A) : res A := inr a.
Definition raise {A} (e : exn) : res A := inl e.
Definition res_bind {A B} (m : res A) (k : A -> res B) : res B :=
  match m with
  | inl e => inl e
  | inr a => k a
  end.

(** [try: body  except Exception as e: handler e] *)
Definition try_except {A} (body : res A) (handler : exn -> res A) : res A :=
  match body with
  | inl e => if is_Exception e then handler e else inl e
  | inr a => inr a
  end.

Declare Scope res_scope.
Delimit Scope res_scope with res.
Notation "x <- m ;; k" := (res_bind m (fun x => k))
  (at level 100, m at next level, right associativity) : res_scope.

(** ** Strings *)

(** [s.startswith(p)] *)
Definition startswith (s p : string) : bool := String.prefix p s.

(** [s.endswith(p)] *)
Definition endswith (s p : string) : bool :=
  let n := String.length s in
  let k := String.length p in
  (k <=? n)%nat && String.eqb (substring (n - k) k s) p.

Definition lower_ascii (c : ascii) : ascii :=
  let n := nat_of_ascii c in
  if ((65 <=? n) && (n <=? 90))%nat then ascii_of_nat (n + 32) else c.

(** [s.lower()] on the bytes of [s]. Python lowers Unicode code points; on
    the ASCII letters the two agree, and no other code point lowers to a
    string that could fill a position of the ASCII prefix tested below, so
    [startswith (lower s) p] is Python's [s.lower().startswith(p)] for the
    ASCII prefix [p] of this program. *)
Fixpoint lower (s : string) : string :=
  match s with
  | EmptyString => EmptyString
  | String c s' => String (lower_ascii c) (lower s')
  end.

(** [os.path.join(a, b)] on POSIX. *)
Definition path_join (a b : string) : string :=
  if startswith b "/" then b
  else if String.eqb a "" || endswith a "/" then a +:+ b
  else a +:+ "/" +:+ b.

(** ** Insertion-ordered dictionaries

    A Python [dict] iterates in insertion order; [_check_bundle_pattern]
    depends on it, so this dictionary is an association list with one
    entry per key, in the order the keys were first set. *)
Module PyDict.
Section Dict.
Context {V : Type}.
Definition t : Type := list (Z * V).

(** [k in d] *)
Definition contains (k : Z) (d : t) : bool :=
  existsb (fun kv => (fst kv =? k)%Z) d.

(** [d[k] = v] *)
Fixpoint set (k : Z) (v : V) (d : t) : t :=
  match d with
  | [] => [(k, v)]
  | (k', v') :: d' =>
      if (k' =? k)%Z then (k', v) :: d' else (k', v') :: set k v d'
  end.

(** The object stored at [d[k]] is replaced by [f] of it (a mutation in
    place of the stored list); a missing key is a [KeyError], which the
    caller below never meets, and leaves [d] as it is here. *)
Fixpoint update (k : Z) (f : V -> V) (d : t) : t :=
  match d with
  | [] => []
  | (k', v') :: d' =>
      if (k' =? k)%Z then (k', f v') :: d' else (k', v') :: update k f d'
  end.

(** [d.items()] *)
Definition items (d : t) : list (Z * V) := d.
End Dict.
Arguments t : clear implicits.
End PyDict.

(** ** app/models.py *)

Module RawTokenAmount.
Record t : Type := Build
  { decimals : Z;
    tokenAmount : string }.
End RawTokenAmount.

Module TokenBalanceChange.
Record t : Type := Build
  { mint : string;
    rawTokenAmount : RawTokenAmount.t;
    tokenAccount : string;
    userAccount : string }.
End TokenBalanceChange.

Module AccountData.
Record t : Type := Build
  { account : string;
    nativeBalanceChange : Z;
    tokenBalanceChanges : list TokenBalanceChange.t }.
End AccountData.

Module Instruction.
Record t : Type := Build
  { accounts : list string;
    data : string;
    innerInstructions : list json;
    programId : string }.
End Instruction.

Module NativeTransfer.
Record t : Type := Build
  { amount : Z;
    fromUserAccount : string;
    toUserAccount : string }.
End NativeTransfer.

Module TokenTransfer.
Record t : Type := Build
  { fromTokenAccount : string;
    fromUserAccount : string;
    mint : string;
    toTokenAccount : string;
    toUserAccount : string;
    tokenAmount : Q;
    tokenStandard : string }.
End TokenTransfer.

Module HeliusTransaction.
(** [extra] holds the fields that [Config.extra = "allow"] lets through. *)
Record t : Type := Build
  { accountData : list AccountData.t;
    description : string;
    events : gmap string json;
    fee : Z;
    feePayer : string;
    instructions : list Instruction.t;
    nativeTransfers : list NativeTransfer.t;
    signature : string;
    slot : Z;
    source : string;
    timestamp : Z;
    tokenTransfers : list TokenTransfer.t;
    transactionError : option json;
    type : string;
    extra : gmap string json }.
End HeliusTransaction.

(** The reason strings of [_analyze_token] are f-strings; a reason is kept
    as its template and the values formatted into it. *)
Inductive reason : Type :=
| ReasonBundle (bundle_gap : option Z)
    (* f"Бандл с девом (индекс: {bundle_gap})" *)
| ReasonLargePurchase (max_sol : option Q)
    (* f"Большая покупка: {max_sol:.2f} SOL" *)
| ReasonMetadataUrl
    (* "Некорректная URL метадаты (не ipfs.io)" *)
| ReasonMintSuffix (suffix : string)
    (* f"Минт не заканчивается на '{PUMP_SUFFIX}'" *).

Module ScamDetectionResult.
Record t : Type := Build
  { mint : string;
    is_scam : bool;
    reasons : list reason;
    flags : gmap string bool;
    has_bundle : bool;
    has_large_purchase : bool;
    invalid_metadata_url : bool;
    invalid_mint_suffix : bool;
    single_token_dev : option bool;
    max_purchase_sol : option Q;
    bundle_index_gap : option Z;
    total_transactions : Z;
    first_seen : option Z;
    last_updated : option Z }.
End ScamDetectionResult.

Module TokenMetadata.
Record t : Type := Build
  { mint : string;
    name : option string;
    symbol : option string;
    uri : option string;
    creator : option string }.
End TokenMetadata.

(** ** app/helius_client.py *)

(** [d.get(k)] on a decoded JSON value: [None] for a missing key, an
    [AttributeError] when [d] is not a dict ([list], [str], [int], [float],
    [bool] and [None] have no [get]). *)
Definition dict_get (d : json) (k : string) : res json :=
  match d with
  | JDict m => inr (default JNull (m !! k))
  | _ => raise AttributeError
  end.

(** [d.get(k, dflt)] *)
Definition dict_get_default (d : json) (k : string) (dflt : json) : res json :=
  match d with
  | JDict m => inr (default dflt (m !! k))
  | _ => raise AttributeError
  end.

(** [a or b]: [b] is evaluated only when [a] is false. *)
Definition py_or (a : json) (b : res json) : res json :=
  if truthy a then inr a else b.

(** Validation of a value for a field typed [Optional[str]]. *)
Definition validate_optional_str (v : json) : res (option string) :=
  match v with
  | JNull => inr None
  | JStr s => inr (Some s)
  | _ => raise ValidationError
  end.

Module HeliusClient.
(** [client] stands for the [httpx.AsyncClient]: [client url key] is what
    the three calls [client.get(url, params={"api-key": key})],
    [response.raise_for_status()] and [response.json()] of one request
    give, the decoded body or the exception that one of them raised. *)
Record t : Type := Build
  { api_key : string;
    base_url : string;
    client : string -> string -> res json }.

Definition __init__ (api_key : string) (client : string -> string -> res json) : t :=
  {| api_key := api_key;
     base_url := "https://api.helius.xyz/v0";
     client := client |}.

Definition get_token_metadata (self : t) (mint : string)
  : res (option TokenMetadata.t) :=
  if negb (str_truthy (api_key self)) then inr None
  else
    try_except
      (let url := base_url self +:+ "/addresses/" +:+ mint in
       data <- client self url (api_key self) ;;
       name <- dict_get data "name" ;;
       symbol <- dict_get data "symbol" ;;
       uri <- (u <- dict_get data "uri" ;;
               py_or u (md <- dict_get_default data "metadata" (JDict ∅) ;;
                        dict_get md "uri")) ;;
       creator <- (c <- dict_get data "creator" ;;
                   py_or c (dict_get data "updateAuthority")) ;;
       name <- validate_optional_str name ;;
       symbol <- validate_optional_str symbol ;;
       uri <- validate_optional_str uri ;;
       creator <- validate_optional_str creator ;;
       let metadata :=
         {| TokenMetadata.mint := mint;
            TokenMetadata.name := name;
            TokenMetadata.symbol := symbol;
            TokenMetadata.uri := uri;
            TokenMetadata.creator := creator |} in
       inr (Some metadata))%res
      (fun e =>
         match e with
         | HTTPStatusError _ => inr None
         | _ => inr None
         end).
End HeliusClient.

(** ** The file system and the state of the process *)

(** What [json.loads] gives for the text of a file this program writes:
    the list of transaction dumps of a mint file, or the dict of result
    dumps of the results file. [model_dump] followed by the model's constructor
    gives the model back, so a dump is kept as the model it dumps. *)
Inductive parsed : Type :=
| TxList (l : list HeliusTransaction.t)
| ResultDict (d : gmap string ScamDetectionResult.t).

(** A file under [data/]: one whose text loads, or one that cannot be
    opened and read or whose text [json.loads] rejects. *)
Inductive file : Type :=
| Unparsable
| Parsable (v : parsed).

(** [writable p] tells whether [open(p, 'w')] succeeds. *)
Record FileSystem : Type := BuildFileSystem
  { files : gmap string file;
    writable : string -> bool }.

Module Storage.
Record t : Type := Build
  { data_dir : string;
    transactions_dir : string;
    results_file : string;
    csv_file : string;
    metadata_cache_file : string;
    _results_cache : gmap string ScamDetectionResult.t }.

Definition __init__ (data_dir : string) : t :=
  {| data_dir := data_dir;
     transactions_dir := path_join data_dir "transactions";
     results_file := path_join data_dir "scam_results.json";
     csv_file := path_join data_dir "scam_results.csv";
     metadata_cache_file := path_join data_dir "token_metadata_cache.json";
     _results_cache := ∅ |}.

Definition set_results_cache (c : gmap string ScamDetectionResult.t) (self : t) : t :=
  {| data_dir := data_dir self;
     transactions_dir := transactions_dir self;
     results_file := results_file self;
     csv_file := csv_file self;
     metadata_cache_file := metadata_cache_file self;
     _results_cache := c |}.
End Storage.

(** The storage object and the file system it works on. *)
Record World : Type := BuildWorld
  { storage : Storage.t;
    fs : FileSystem }.

Definition IO (A : Type) : Type := World -> World * res A.

Definition io_ret {A} (a : A) : IO A := fun w => (w, inr a).
Definition io_raise {A} (e : exn) : IO A := fun w => (w, inl e).
Definition io_bind {A B} (m : IO A) (k : A -> IO B) : IO B :=
  fun w =>
    match m w with
    | (w', inl e) => (w', inl e)
    | (w', inr a) => k a w'
    end.

(** [try: body  except Exception as e: handler e]; what [body] did to the
    world before it raised stays done. *)
Definition io_try_except {A} (body : IO A) (handler : exn -> IO A) : IO A :=
  fun w =>
    match body w with
    | (w', inl e) => if is_Exception e then handler e w' else (w', inl e)
    | (w', inr a) => (w', inr a)
    end.

Declare Scope io_scope.
Delimit Scope io_scope with io.
Notation "x <- m ;; k" := (io_bind m (fun x => k))
  (at level 100, m at next level, right associativity) : io_scope.
Notation "m ;; k" := (io_bind m (fun _ => k))
  (at level 100, right associativity) : io_scope.

(** [for x in l: acc = body x acc] *)
Fixpoint for_each {A S} (l : list A) (acc : S) (body : A -> S -> IO S) : IO S :=
  match l with
  | [] => io_ret acc
  | x :: l' => (acc' <- body x acc ;; for_each l' acc' body)%io
  end.

(** [os.path.exists(p)] *)
Definition path_exists (p : string) : IO bool :=
  fun w => (w, inr (bool_decide (is_Some (files (fs w) !! p)))).

(** [async with aiofiles.open(p, 'r') as f: json.loads(await f.read())] *)
Definition read_json (p : string) : IO parsed :=
  fun w =>
    match files (fs w) !! p with
    | None => (w, inl OSError)
    | Some Unparsable => (w, inl JSONDecodeError)
    | Some (Parsable v) => (w, inr v)
    end.

(** [async with aiofiles.open(p, 'w') as f: await f.write(json.dumps(v))] *)
Definition write_json (p : string) (v : parsed) : IO unit :=
  fun w =>
    if writable (fs w) p then
      ({| storage := storage w;
          fs := {| files := <[p := Parsable v]> (files (fs w));
                   writable := writable (fs w) |} |}, inr tt)
    else (w, inl OSError).

Definition get_self : IO Storage.t := fun w => (w, inr (storage w)).

Definition put_self (s : Storage.t) : IO unit :=
  fun w => ({| storage := s; fs := fs w |}, inr tt).

(** ** app/storage.py *)

Definition mint_file (self : Storage.t) (mint : string) : string :=
  path_join (Storage.transactions_dir self) (mint +:+ ".json").

(** [Storage.add_transaction] up to its last read of the file: the local
    [transactions]. *)
Definition add_transaction_read (mint : string) : IO parsed :=
  (self <- get_self ;;
   let mint_file := mint_file self mint in
   let transactions := TxList [] in
   ex <- path_exists mint_file ;;
   if ex : bool then
     io_try_except (read_json mint_file) (fun e => io_ret transactions)
   else io_ret transactions)%io.

(** [any(t.get('signature') == tx_dict['signature'] for t in transactions)];
    iterating a dict gives its keys, and a [str] has no [get]. *)
Definition any_same_signature (transactions : parsed)
    (tx_dict : HeliusTransaction.t) : res bool :=
  match transactions with
  | TxList l =>
      inr (existsb (fun t => String.eqb (HeliusTransaction.signature t)
                               (HeliusTransaction.signature tx_dict)) l)
  | ResultDict d =>
      if bool_decide (d = ∅) then inr false else raise AttributeError
  end.

(** [transactions.append(tx_dict)]; a dict has no [append]. *)
Definition py_append (transactions : parsed) (tx_dict : HeliusTransaction.t)
  : res parsed :=
  match transactions with
  | TxList l => inr (TxList (l ++ [tx_dict]))
  | ResultDict _ => raise AttributeError
  end.

Definition io_lift {A} (r : res A) : IO A := fun w => (w, r).

(** [Storage.add_transaction] from the test of the signature on. *)
Definition add_transaction_write (mint : string)
    (transaction : HeliusTransaction.t) (transactions : parsed) : IO unit :=
  (self <- get_self ;;
   let mint_file := mint_file self mint in
   let tx_dict := transaction in
   found <- io_lift (any_same_signature transactions tx_dict) ;;
   if negb found then
     transactions <- io_lift (py_append transactions tx_dict) ;;
     write_json mint_file transactions
   else io_ret tt)%io.

Definition add_transaction (mint : string) (transaction : HeliusTransaction.t)
  : IO unit :=
  (transactions <- add_transaction_read mint ;;
   add_transaction_write mint transaction transactions)%io.

(** The list comprehension that builds a [HeliusTransaction] from every
    [tx] in [data]: iterating a dict gives its keys, and unpacking a string
    as keyword arguments is a [TypeError]. *)
Definition load_transactions (data : parsed) : res (list HeliusTransaction.t) :=
  match data with
  | TxList l => inr l
  | ResultDict d => if bool_decide (d = ∅) then inr [] else raise TypeError
  end.

Definition get_token_transactions (mint : string) : IO (list HeliusTransaction.t) :=
  (self <- get_self ;;
   let mint_file := mint_file self mint in
   ex <- path_exists mint_file ;;
   if negb ex then io_ret []
   else
     io_try_except
       (data <- read_json mint_file ;;
        io_lift (load_transactions data))
       (fun e => io_ret []))%io.

Definition save_result (result : ScamDetectionResult.t) : IO unit :=
  (self <- get_self ;;
   put_self (Storage.set_results_cache
               (<[ScamDetectionResult.mint result := result]>
                  (Storage._results_cache self)) self) ;;
   io_try_except
     (self <- get_self ;;
      let data := Storage._results_cache self in
      write_json (Storage.results_file self) (ResultDict data))
     (fun e => io_ret tt))%io.

Definition get_result (mint : string) : IO (option ScamDetectionResult.t) :=
  (self <- get_self ;;
   io_ret (Storage._results_cache self !! mint))%io.

(** ** app/detector.py *)

Definition LAMPORTS_PER_SOL : Z := 1000000000.
Definition BUNDLE_INDEX_THRESHOLD : Z := 30.
Definition LARGE_PURCHASE_THRESHOLD_SOL : Q := 30%Q.
Definition PUMP_SUFFIX : string := "pump".

(** [x > y] on floats *)
Definition float_gt (x y : Q) : bool := negb (Qle_bool x y).

Module ScamDetector.
Record t : Type := Build
  { helius_client : HeliusClient.t }.
End ScamDetector.

(** [_extract_mints] before [list(mints)]: the set it builds. *)
Definition _extract_mints_set (transaction : HeliusTransaction.t) : gset string :=
  let mints : gset string := ∅ in
  let mints :=
    fold_left
      (fun (mints : gset string) transfer =>
         if str_truthy (TokenTransfer.mint transfer)
         then mints ∪ {[TokenTransfer.mint transfer]} else mints)
      (HeliusTransaction.tokenTransfers transaction) mints in
  let mints :=
    fold_left
      (fun (mints : gset string) account_data =>
         fold_left
           (fun (mints : gset string) balance_change =>
              if str_truthy (TokenBalanceChange.mint balance_change)
              then mints ∪ {[TokenBalanceChange.mint balance_change]} else mints)
           (AccountData.tokenBalanceChanges account_data) mints)
      (HeliusTransaction.accountData transaction) mints in
  mints.

(** Python leaves the order of [list(mints)] open; [elements] is one order,
    and nothing below depends on which. *)
Definition _extract_mints (transaction : HeliusTransaction.t) : list string :=
  elements (_extract_mints_set transaction).

(** The first loop of [_check_bundle_pattern]: the transactions grouped by
    slot, in the order the slots are first met. *)
Definition group_by_slot (transactions : list HeliusTransaction.t)
  : PyDict.t (list HeliusTransaction.t) :=
  fold_left
    (fun slots_txs tx =>
       let slots_txs :=
         if negb (PyDict.contains (HeliusTransaction.slot tx) slots_txs)
         then PyDict.set (HeliusTransaction.slot tx) [] slots_txs
         else slots_txs in
       PyDict.update (HeliusTransaction.slot tx) (fun txs => txs ++ [tx]) slots_txs)
    transactions [].

(** The second loop: the first group of two or more. *)
Fixpoint first_bundle (items : list (Z * list HeliusTransaction.t))
  : bool * option Z :=
  match items with
  | [] => (false, None)
  | (slot, txs) :: items' =>
      if (2 <=? Z.of_nat (length txs))%Z
      then (true, Some (Z.of_nat (length txs)))
      else first_bundle items'
  end.

Definition _check_bundle_pattern (transactions : list HeliusTransaction.t)
  : bool * option Z :=
  if (Z.of_nat (length transactions) <? 2)%Z then (false, None)
  else
    let slots_txs := group_by_slot transactions in
    first_bundle (PyDict.items slots_txs).

(** [_check_mint_suffix] *)
Definition _check_mint_suffix (mint : string) : bool :=
  negb (endswith mint PUMP_SUFFIX).

(** [_check_metadata_url]; [not metadata] is false for a model instance. *)
Definition _check_metadata_url (self : ScamDetector.t) (mint : string) : res bool :=
  try_except
    (metadata <- HeliusClient.get_token_metadata (ScamDetector.helius_client self) mint ;;
     match metadata with
     | None => inr false
     | Some metadata =>
         match TokenMetadata.uri metadata with
         | None => inr false
         | Some u =>
             if negb (str_truthy u) then inr false
             else
               let uri := lower u in
               if negb (startswith uri "https://ipfs.io/") then inr true
               else inr false
         end
     end)%res
    (fun e => inr false).

Section Pipeline.

(** [rnd q] is the double nearest to the rational [q]: Python's [a / b] on
    two ints is the correctly rounded quotient, [rnd (a / b)]. The amounts
    are lamports, far inside the range of a double, so the division does
    not overflow. *)
Variable rnd : Q -> Q.

(** [a / b] for two ints *)
Definition truediv (a b : Z) : Q := rnd (inject_Z a / inject_Z b).

Definition _check_large_purchase (transactions : list HeliusTransaction.t)
  : bool * option Q :=
  let max_sol_amount : Q := 0%Q in
  let max_sol_amount :=
    fold_left
      (fun (max_sol_amount : Q) tx =>
         fold_left
           (fun (max_sol_amount : Q) transfer =>
              let sol_amount := truediv (NativeTransfer.amount transfer) LAMPORTS_PER_SOL in
              if float_gt sol_amount max_sol_amount then sol_amount
              else max_sol_amount)
           (HeliusTransaction.nativeTransfers tx) max_sol_amount)
      transactions max_sol_amount in
  let has_large := float_gt max_sol_amount LARGE_PURCHASE_THRESHOLD_SOL in
  (has_large, if has_large then Some max_sol_amount else None).

(** One pass of the body of the inner loop of [_check_large_purchase]. *)
Definition keep_max (max_sol_amount : Q) (amount : Z) : Q :=
  let sol_amount := truediv amount LAMPORTS_PER_SOL in
  if float_gt sol_amount max_sol_amount then sol_amount else max_sol_amount.

(** [min(l)] of a list that is not empty *)
Definition py_min (x : Z) (l : list Z) : Z := fold_left Z.min l x.

Definition _analyze_token (self : ScamDetector.t) (mint : string)
    (transactions : list HeliusTransaction.t) (current_tx : HeliusTransaction.t)
  : res ScamDetectionResult.t :=
  (let is_scam := false in
   let reasons : list reason := [] in
   let '(has_bundle, bundle_gap) := _check_bundle_pattern transactions in
   let '(is_scam, reasons) :=
     if has_bundle : bool
     then (true, reasons ++ [ReasonBundle bundle_gap])
     else (is_scam, reasons) in
   let '(has_large_purchase, max_sol) := _check_large_purchase transactions in
   let '(is_scam, reasons) :=
     if has_large_purchase : bool
     then (true, reasons ++ [ReasonLargePurchase max_sol])
     else (is_scam, reasons) in
   invalid_metadata <- _check_metadata_url self mint ;;
   let '(is_scam, reasons) :=
     if invalid_metadata : bool
     then (true, reasons ++ [ReasonMetadataUrl])
     else (is_scam, reasons) in
   let invalid_suffix := _check_mint_suffix mint in
   let '(is_scam, reasons) :=
     if invalid_suffix : bool
     then (true, reasons ++ [ReasonMintSuffix PUMP_SUFFIX])
     else (is_scam, reasons) in
   let timestamps := map HeliusTransaction.timestamp transactions in
   let first_seen :=
     match timestamps with
     | [] => HeliusTransaction.timestamp current_tx
     | t :: ts => py_min t ts
     end in
   inr {| ScamDetectionResult.mint := mint;
          ScamDetectionResult.is_scam := is_scam;
          ScamDetectionResult.reasons := reasons;
          ScamDetectionResult.flags := ∅;
          ScamDetectionResult.has_bundle := has_bundle;
          ScamDetectionResult.has_large_purchase := has_large_purchase;
          ScamDetectionResult.invalid_metadata_url := invalid_metadata;
          ScamDetectionResult.invalid_mint_suffix := invalid_suffix;
          ScamDetectionResult.single_token_dev := None;
          ScamDetectionResult.max_purchase_sol := max_sol;
          ScamDetectionResult.bundle_index_gap := bundle_gap;
          ScamDetectionResult.total_transactions := Z.of_nat (length transactions);
          ScamDetectionResult.first_seen := Some first_seen;
          ScamDetectionResult.last_updated :=
            Some (HeliusTransaction.timestamp current_tx) |})%res.

(** The body of the loop of [analyze_transaction]. *)
Definition analyze_mint (self : ScamDetector.t) (transaction : HeliusTransaction.t)
    (mint : string) (results : list ScamDetectionResult.t)
  : IO (list ScamDetectionResult.t) :=
  (add_transaction mint transaction ;;
   token_transactions <- get_token_transactions mint ;;
   result <- io_lift (_analyze_token self mint token_transactions transaction) ;;
   let results := results ++ [result] in
   save_result result ;;
   io_ret results)%io.

Definition analyze_transaction (self : ScamDetector.t)
    (transaction : HeliusTransaction.t) : IO (list ScamDetectionResult.t) :=
  let results : list ScamDetectionResult.t := [] in
  let mints := _extract_mints transaction in
  match mints with
  | [] => io_ret results
  | _ => for_each mints results (analyze_mint self transaction)
  end.

(** ** Two invocations in one event loop

    An [await] is where the event loop can switch to another coroutine.
    One pass of the loop body of [analyze_transaction] for one mint is cut
    at its awaits into the steps below; [pc] is where a coroutine stands,
    with the locals it holds there. *)
Inductive pc : Type :=
| PcAdd
    (* before [add_transaction] *)
| PcAddWrite (transactions : parsed)
    (* in [add_transaction], the file read and closed *)
| PcReadAll
    (* before [get_token_transactions] *)
| PcAnalyze (token_transactions : list HeliusTransaction.t)
    (* before [_analyze_token] *)
| PcSave (result : ScamDetectionResult.t)
    (* before [save_result] *)
| PcDone (result : ScamDetectionResult.t)
| PcRaised (e : exn).

Record task : Type := BuildTask
  { task_mint : string;
    task_transaction : HeliusTransaction.t;
    task_pc : pc }.

(** Runs [m], and goes on at [k] of its value. *)
Definition advance {A} (m : IO A) (k : A -> pc) : World -> World * pc :=
  fun w =>
    match m w with
    | (w', inl e) => (w', PcRaised e)
    | (w', inr a) => (w', k a)
    end.

Definition step_pc (self : ScamDetector.t) (mint : string)
    (transaction : HeliusTransaction.t) (p : pc) : World -> World * pc :=
  match p with
  | PcAdd => advance (add_transaction_read mint) PcAddWrite
  | PcAddWrite transactions =>
      advance (add_transaction_write mint transaction transactions)
        (fun _ => PcReadAll)
  | PcReadAll => advance (get_token_transactions mint) PcAnalyze
  | PcAnalyze token_transactions =>
      advance (io_lift (_analyze_token self mint token_transactions transaction))
        PcSave
  | PcSave result => advance (save_result result) (fun _ => PcDone result)
  | PcDone result => fun w => (w, PcDone result)
  | PcRaised e => fun w => (w, PcRaised e)
  end.

Definition step_task (self : ScamDetector.t) (t : task) (w : World) : World * task :=
  let '(w', p) := step_pc self (task_mint t) (task_transaction t) (task_pc t) w in
  (w', {| task_mint := task_mint t;
          task_transaction := task_transaction t;
          task_pc := p |}).

(** A schedule names, step by step, which of two coroutines runs next:
    [false] the first, [true] the second. *)
Fixpoint run (self : ScamDetector.t) (schedule : list bool) (a b : task)
    (w : World) : World * (task * task) :=
  match schedule with
  | [] => (w, (a, b))
  | false :: schedule' =>
      let '(w', a') := step_task self a w in run self schedule' a' b w'
  | true :: schedule' =>
      let '(w', b') := step_task self b w in run self schedule' a b' w'
  end.

Definition start (mint : string) (transaction : HeliusTransaction.t) : task :=
  {| task_mint := mint; task_transaction := transaction; task_pc := PcAdd |}.

(** The first coroutine runs to its end before the second starts. *)
Definition serial_schedule : list bool :=
  [false; false; false; false; false; true; true; true; true; true].

(** Every coroutine gets its five steps. *)
Definition complete (schedule : list bool) : Prop :=
  length (List.filter negb schedule) = 5%nat /\
  length (List.filter id schedule) = 5%nat.

End Pipeline.

(** ** Sample inputs *)

(** A transaction with the given signature, slot, timestamp, native
    transfer amounts and token-transfer mints, and defaults elsewhere. *)
Definition sample_tx (signature : string) (slot timestamp : Z)
    (amounts : list Z) (mints : list string) : HeliusTransaction.t :=
  {| HeliusTransaction.accountData := [];
     HeliusTransaction.description := "";
     HeliusTransaction.events := ∅;
     HeliusTransaction.fee := 0;
     HeliusTransaction.feePayer := "";
     HeliusTransaction.instructions := [];
     HeliusTransaction.nativeTransfers :=
       map (fun a => {| NativeTransfer.amount := a;
                        NativeTransfer.fromUserAccount := "";
                        NativeTransfer.toUserAccount := "" |}) amounts;
     HeliusTransaction.signature := signature;
     HeliusTransaction.slot := slot;
     HeliusTransaction.source := "PUMP_FUN";
     HeliusTransaction.timestamp := timestamp;
     HeliusTransaction.tokenTransfers :=
       map (fun m => {| TokenTransfer.fromTokenAccount := "";
                        TokenTransfer.fromUserAccount := "";
                        TokenTransfer.mint := m;
                        TokenTransfer.toTokenAccount := "";
                        TokenTransfer.toUserAccount := "";
                        TokenTransfer.tokenAmount := 1%Q;
                        TokenTransfer.tokenStandard := "Fungible" |}) mints;
     HeliusTransaction.transactionError := None;
     HeliusTransaction.type := "SWAP";
     HeliusTransaction.extra := ∅ |}.

(** A client without an API key, as [main.py] builds it when
    [HELIUS_API_KEY] is not set. *)
Definition keyless_client : HeliusClient.t :=
  HeliusClient.__init__ "" (fun _ _ => raise RequestError).

(** A client with a key whose every request answers [data]. *)
Definition answering_client (data : json) : HeliusClient.t :=
  HeliusClient.__init__ "key" (fun _ _ => inr data).

Definition sample_detector : ScamDetector.t :=
  {| ScamDetector.helius_client := keyless_client |}.

(** A fresh [Storage(data_dir="data")] on an empty disk where every path
    can be written, or none. *)
Definition fresh_world (can_write : string -> bool) : World :=
  {| storage := Storage.__init__ "data";
     fs := {| files := ∅; writable := can_write |} |}.

(** Rounding that changes nothing: the arithmetic of a machine whose every
    quotient below is a double. *)
Definition exact : Q -> Q := fun q => q.

(** Two transactions for the mint "Mpump", and a fresh world where every
    path can be written. *)
Definition txA : HeliusTransaction.t := sample_tx "sigA" 100 7 [] ["Mpump"].
Definition txB : HeliusTransaction.t := sample_tx "sigB" 101 8 [] ["Mpump"].
Definition w0 : World := fresh_world (fun _ => true).

(** ** Notions the statements use *)

(** *** Bundles *)

Definition in_slot (s : Z) (tx : HeliusTransaction.t) : bool :=
  (HeliusTransaction.slot tx =? s)%Z.
Definition slot_group (s : Z) (txs : list HeliusTransaction.t) :=
  List.filter (in_slot s) txs.
Definition slot_count (s : Z) (txs : list HeliusTransaction.t) : Z :=
  Z.of_nat (length (slot_group s txs)).
Definition largest_group (txs : list HeliusTransaction.t) : Z :=
  fold_right Z.max 0 (map (fun tx => slot_count (HeliusTransaction.slot tx) txs) txs).
Definition shares_slot (txs : list HeliusTransaction.t) : Prop :=
  exists i j t1 t2, i <> j /\ txs !! i = Some t1 /\ txs !! j = Some t2 /\
    HeliusTransaction.slot t1 = HeliusTransaction.slot t2.
Definition first_bundled (txs : list HeliusTransaction.t) : option HeliusTransaction.t :=
  List.find (fun tx => (2 <=? slot_count (HeliusTransaction.slot tx) txs)%Z) txs.
Fixpoint slots_met (txs : list HeliusTransaction.t) : list Z :=
  match txs with
  | [] => []
  | tx :: txs' =>
      HeliusTransaction.slot tx
        :: List.filter (fun s => negb (s =? HeliusTransaction.slot tx)%Z) (slots_met txs')
  end.

(** *** Large purchases *)

(** The native-transfer amounts of a log, in the order the loops of
    [_check_large_purchase] meet them. *)
Definition native_amounts (txs : list HeliusTransaction.t) : list Z :=
  flat_map (fun tx => map NativeTransfer.amount (HeliusTransaction.nativeTransfers tx)) txs.

(** The greatest of a list of amounts, when there is one. *)
Definition max_amount (l : list Z) : option Z :=
  match l with
  | [] => None
  | a :: l' => Some (fold_left Z.max l' a)
  end.

(** The finite binary64 numbers. *)
Definition representable (q : Q) : Prop :=
  exists m e : Z,
    (Z.abs m < 2 ^ 53)%Z /\ (-1074 <= e <= 971)%Z /\ (q == inject_Z m * 2 ^ e)%Q.

(** Rounding to nearest keeps the order and keeps a double as it is. *)
Definition monotone (rnd : Q -> Q) : Prop :=
  forall x y : Q, (x <= y)%Q -> (rnd x <= rnd y)%Q.
Definition exact_on_doubles (rnd : Q -> Q) : Prop :=
  forall q : Q, representable q -> (rnd q == q)%Q.

(** *** Metadata URLs *)

(** [u] starts, case-insensitively, with the lower-case string [p]: a
    prefix of [u] lowers to [p]. *)
Definition starts_caseless (u p : string) : Prop :=
  exists pre rest, u = pre +:+ rest /\ lower pre = p.

(** The URL that [get_token_metadata] requests for a mint. *)
Definition metadata_url (c : HeliusClient.t) (mint : string) : string :=
  HeliusClient.base_url c +:+ "/addresses/" +:+ mint.

(** *** Results *)

(** The reasons that go with the flags of a result, in the order of the
    evaluation. *)
Definition reasons_of_flags (r : ScamDetectionResult.t) : list reason :=
  (if ScamDetectionResult.has_bundle r
   then [ReasonBundle (ScamDetectionResult.bundle_index_gap r)] else []) ++
  (if ScamDetectionResult.has_large_purchase r
   then [ReasonLargePurchase (ScamDetectionResult.max_purchase_sol r)] else []) ++
  (if ScamDetectionResult.invalid_metadata_url r then [ReasonMetadataUrl] else []) ++
  (if ScamDetectionResult.invalid_mint_suffix r
   then [ReasonMintSuffix PUMP_SUFFIX] else []).

(** How many of the four flags of a result are true. *)
Definition true_flags (r : ScamDetectionResult.t) : nat :=
  Nat.b2n (ScamDetectionResult.has_bundle r) +
  Nat.b2n (ScamDetectionResult.has_large_purchase r) +
  Nat.b2n (ScamDetectionResult.invalid_metadata_url r) +
  Nat.b2n (ScamDetectionResult.invalid_mint_suffix r).

(** *** Logs *)

Definition has_signature (s : string) (t : HeliusTransaction.t) : bool :=
  String.eqb (HeliusTransaction.signature t) s.

(** How many entries of a log carry the signature [s]. *)
Definition signature_count (s : string) (l : list HeliusTransaction.t) : nat :=
  length (List.filter (has_signature s) l).

(** The content of the file of a mint. *)
Definition mint_file_content (w : World) (mint : string) : option file :=
  files (fs w) !! mint_file (storage w) mint.

(** The log that [add_transaction] finds for a mint: a missing file and a
    file that does not load count as an empty log. *)
Definition log_of (w : World) (mint : string) : option (list HeliusTransaction.t) :=
  match mint_file_content w mint with
  | None | Some Unparsable => Some []
  | Some (Parsable (TxList l)) => Some l
  | Some (Parsable (ResultDict _)) => None
  end.

(** No two entries of the log of a mint carry the same signature: what
    [add_transaction] keeps true of the files it writes. *)
Definition log_unique (w : World) (mint : string) : Prop :=
  forall l, log_of w mint = Some l -> List.NoDup (map HeliusTransaction.signature l).

(** The world after a write of [v] to the path [p]. *)
Definition with_file (p : string) (v : parsed) (w : World) : World :=
  {| storage := storage w;
     fs := {| files := <[p := Parsable v]> (files (fs w));
              writable := writable (fs w) |} |}.

(** *** Mints *)

(** The mint fields of a transaction: those of its token transfers, then
    those of the balance changes of its accounts. *)
Definition mentioned_mints (tx : HeliusTransaction.t) : list string :=
  map TokenTransfer.mint (HeliusTransaction.tokenTransfers tx) ++
  flat_map (fun a => map TokenBalanceChange.mint (AccountData.tokenBalanceChanges a))
    (HeliusTransaction.accountData tx).

(** *** Evaluations *)

(** [t] is the least of the timestamps [ts]. *)
Definition earliest (ts : list Z) (t : Z) : Prop :=
  In t ts /\ forall t', In t' ts -> (t <= t')%Z.

(** The storage object after [self._results_cache[result.mint] = result]. *)
Definition cached (result : ScamDetectionResult.t) (s : Storage.t) : Storage.t :=
  Storage.set_results_cache
    (<[ScamDetectionResult.mint result := result]> (Storage._results_cache s)) s.

(** *** Schedules *)

(** A coroutine that has finished with the result [r]. *)
Definition finished (mint : string) (transaction : HeliusTransaction.t)
    (r : ScamDetectionResult.t) : task :=
  {| task_mint := mint; task_transaction := transaction; task_pc := PcDone r |}.

(** The two coroutines take turns, step by step. *)
Definition alternating_schedule : list bool :=
  [false; true; false; true; false; true; false; true; false; true].

(** The second coroutine runs to its end before the first starts. *)
Definition reverse_serial_schedule : list bool :=
  [true; true; true; true; true; false; false; false; false; false].

(** The two coroutines of a mint are serialized when every complete
    schedule ends in the world that one of the two serial schedules ends
    in. *)
Definition serialized (rnd : Q -> Q) (self : ScamDetector.t) (mint : string)
    (txA txB : HeliusTransaction.t) (w : World) : Prop :=
  forall schedule, complete schedule ->
    run rnd self schedule (start mint txA) (start mint txB) w
      = run rnd self serial_schedule (start mint txA) (start mint txB) w \/
    run rnd self schedule (start mint txA) (start mint txB) w
      = run rnd self reverse_serial_schedule (start mint txA) (start mint txB) w.

(** ** More sample inputs *)

(** Five transactions in the slots 1, 1, 2, 2, 2. *)
Definition two_bundles : list HeliusTransaction.t :=
  [sample_tx "a" 1 0 [] []; sample_tx "b" 1 0 [] []; sample_tx "c" 2 0 [] [];
   sample_tx "d" 2 0 [] []; sample_tx "e" 2 0 [] []].

(** A transaction whose token transfers name the mint "Mpump" and the
    empty string. *)
Definition tx_with_empty_mint : HeliusTransaction.t :=
  sample_tx "a" 100 7 [] ["Mpump"; ""].

(** A fresh world where the results file cannot be written. *)
Definition w_results_readonly : World :=
  fresh_world (fun p => negb (String.eqb p "data/scam_results.json")).

Definition tx_35_sol : HeliusTransaction.t :=
  sample_tx "a" 100 7 [35000000000] ["Mpump"].

(** The result of a pass of the loop body that returned one. *)
Definition returned (o : World * res (list ScamDetectionResult.t))
  : ScamDetectionResult.t :=
  match snd o with
  | inr [r] => r
  | _ => ScamDetectionResult.Build "" false [] ∅ false false false false
           None None None 0 None None
  end.

Definition after_txA : World * res (list ScamDetectionResult.t) :=
  analyze_mint exact sample_detector txA "Mpump" [] w0.

Definition after_txB : World * res (list ScamDetectionResult.t) :=
  analyze_mint exact sample_detector txB "Mpump" [] (fst after_txA).

(** ** More of app/storage.py *)

(** [list(self._results_cache.values())]. The cache is kept as a finite
    map, which forgets the order of insertion that a Python dict keeps: the
    list is in the order of the map. *)
Definition get_all_results : IO (list ScamDetectionResult.t) :=
  (self <- get_self ;;
   io_ret (map snd (map_to_list (Storage._results_cache self))))%io.

(** The dict comprehension of [initialize], which builds a result from
    every value of [data.items()]; a list has no [items]. *)
Definition load_results (data : parsed) : res (gmap string ScamDetectionResult.t) :=
  match data with
  | ResultDict d => inr d
  | TxList _ => raise AttributeError
  end.

(** [Storage.initialize]. A directory is not a file of [FileSystem], and
    creating one changes no file; whether [os.makedirs(p, exist_ok=True)]
    succeeds is the environment's, and [makedirs p] is its outcome. *)
Definition initialize (makedirs : string -> res unit) : IO unit :=
  (self <- get_self ;;
   io_lift (makedirs (Storage.transactions_dir self)) ;;
   io_lift (makedirs (Storage.data_dir self)) ;;
   ex <- path_exists (Storage.results_file self) ;;
   (if ex : bool then
      io_try_except
        (data <- read_json (Storage.results_file self) ;;
         cache <- io_lift (load_results data) ;;
         self <- get_self ;;
         put_self (Storage.set_results_cache cache self))
        (fun e => io_ret tt)
    else io_ret tt) ;;
   io_ret tt)%io.

(** The process after a restart: a new [Storage(data_dir)] on the files
    that are there. *)
Definition restarted (data_dir : string) (w : World) : World :=
  {| storage := Storage.__init__ data_dir; fs := fs w |}.

(** ** app/utils.py *)

(** [lamports_to_sol]; [rnd] rounds the quotient as in section [Pipeline]. *)
Definition lamports_to_sol (rnd : Q -> Q) (lamports : Z) : Q :=
  truediv rnd lamports 1000000000.

(** ** app/main.py *)

(** [sub in s] for two strings: [sub] occurs in [s]. *)
Fixpoint has_substring (sub s : string) : bool :=
  String.prefix sub s ||
  match s with
  | EmptyString => false
  | String _ s' => has_substring sub s'
  end.

(** [x == v] for a string [x] and a decoded JSON value [v]. *)
Definition str_eq_json (x : string) (v : json) : bool :=
  match v with
  | JStr s => String.eqb x s
  | _ => false
  end.

(** [x in v] for a string [x]: a substring test on a string, a test of the
    elements of a list, a test of the keys of a dict, and a [TypeError] on
    a value that is not iterable. *)
Definition py_in (x : string) (v : json) : res bool :=
  match v with
  | JStr s => inr (has_substring x s)
  | JList l => inr (existsb (str_eq_json x) l)
  | JDict d => inr (bool_decide (is_Some (d !! x)))
  | _ => raise TypeError
  end.

(** [v[:16]], evaluated for the log line of an accepted transaction: a
    string and a list can be sliced, nothing else can. (A dict raises a
    [TypeError] or, from Python 3.12 on, a [KeyError]; the handler treats
    the two alike.) *)
Definition py_slice (v : json) : res unit :=
  match v with
  | JStr _ | JList _ => inr tt
  | _ => raise TypeError
  end.

(** The JSON body of the response of [webhook_handler]. *)
Record WebhookResponse : Type := BuildWebhookResponse
  { status : string;
    total_received : Z;
    processed : Z;
    filtered_out : Z;
    tokens_analyzed : Z }.

(** What the handler answers: its response, or the [HTTPException] with
    status 500 that it raises for the exception [e]. *)
Inductive webhook_outcome : Type :=
| Responded (r : WebhookResponse)
| Failed500 (e : exn).

(** What the [try] body of the loop of [webhook_handler] does with one
    element of the batch, when it does not raise: it leaves the element
    out ([continue]) or hands its results on. *)
Inductive item_outcome : Type :=
| FilteredOut
| Processed (results : list ScamDetectionResult.t).

(** The locals [processed], [filtered_out] and [all_results] of
    [webhook_handler]. *)
Record counters : Type := BuildCounters
  { n_processed : Z;
    n_filtered_out : Z;
    all_results : list ScamDetectionResult.t }.

Section Webhook.

Variable rnd : Q -> Q.

(** [validate d] is what pydantic makes of the constructor of
    [HeliusTransaction] called with the entries of the dict [d] as keyword
    arguments: the model, or a [ValidationError]. *)
Variable validate : gmap string json -> res HeliusTransaction.t.

(** The global [detector], set by [lifespan] before any request. *)
Variable detector : ScamDetector.t.

(** The body of the [try] in the loop of [webhook_handler]. *)
Definition webhook_item (tx_data : json) : IO item_outcome :=
  (tx_type <- io_lift (dict_get_default tx_data "type" (JStr "")) ;;
   tx_source <- io_lift (dict_get_default tx_data "source" (JStr "")) ;;
   signature <- io_lift (dict_get_default tx_data "signature" (JStr "N/A")) ;;
   is_nft <- io_lift (py_in "NFT" tx_type) ;;
   if is_nft : bool then io_ret FilteredOut
   else if negb (str_eq_json "PUMP_FUN" tx_source) then io_ret FilteredOut
   else
     io_lift (py_slice signature) ;;
     transaction <- io_lift (match tx_data with
                             | JDict d => validate d
                             | _ => raise TypeError
                             end) ;;
     results <- analyze_transaction rnd detector transaction ;;
     io_ret (Processed results))%io.

(** One pass of the loop of [webhook_handler]: the [try] body with its two
    [except] clauses, both of which count the element as filtered out. *)
Definition webhook_step (tx_data : json) (c : counters) : IO counters :=
  (o <- io_try_except (webhook_item tx_data)
          (fun e =>
             match e with
             | ValidationError => io_ret FilteredOut
             | _ => io_ret FilteredOut
             end) ;;
   match o with
   | FilteredOut =>
       io_ret {| n_processed := n_processed c;
                 n_filtered_out := n_filtered_out c + 1;
                 all_results := all_results c |}
   | Processed results =>
       io_ret {| n_processed := n_processed c + 1;
                 n_filtered_out := n_filtered_out c;
                 all_results := all_results c ++ results |}
   end)%io.

(** [webhook_handler]; [request_json] is what [await request.json()]
    gives, the decoded body or the exception it raised. *)
Definition webhook_handler (request_json : res json) : IO webhook_outcome :=
  match request_json with
  | inl e => io_ret (Failed500 e)
  | inr body =>
      let body := match body with JList l => l | _ => [body] end in
      let total_received := Z.of_nat (length body) in
      (c <- for_each body
              {| n_processed := 0; n_filtered_out := 0; all_results := [] |}
              webhook_step ;;
       io_ret (Responded
                 {| status := "success";
                    total_received := total_received;
                    processed := n_processed c;
                    filtered_out := n_filtered_out c;
                    tokens_analyzed := Z.of_nat (length (all_results c)) |}))%io
  end.

End Webhook.

(** ** More notions the statements use *)

(** No log on disk holds two entries with the same signature. *)
Definition files_unique (w : World) : Prop :=
  forall p l, files (fs w) !! p = Some (Parsable (TxList l)) ->
    List.NoDup (map HeliusTransaction.signature l).

(** A result as [_analyze_token] builds it for the mint [k]. *)
Definition result_ok (k : string) (r : ScamDetectionResult.t) : Prop :=
  ScamDetectionResult.mint r = k /\
  ScamDetectionResult.is_scam r =
    ScamDetectionResult.has_bundle r || ScamDetectionResult.has_large_purchase r
    || ScamDetectionResult.invalid_metadata_url r
    || ScamDetectionResult.invalid_mint_suffix r /\
  ScamDetectionResult.reasons r = reasons_of_flags r.

(** Every cached result is one for the mint it is cached under. *)
Definition cache_ok (w : World) : Prop :=
  forall k r, Storage._results_cache (storage w) !! k = Some r -> result_ok k r.

(** The storage object of [w'] is that of [w] but for its cache. *)
Definition same_storage_paths (w w' : World) : Prop :=
  exists c, storage w' = Storage.set_results_cache c (storage w).

(** The files that a run of the pipeline on the mints [mints] may write. *)
Definition pipeline_paths (w : World) (mints : list string) : list string :=
  Storage.results_file (storage w) :: map (mint_file (storage w)) mints.

(** How the world after a run of the pipeline on the mints [l] relates to
    the world before it. *)
Definition framed (l : list string) (w w' : World) : Prop :=
  same_storage_paths w w' /\
  writable (fs w') = writable (fs w) /\
  (forall p, ~ In p (pipeline_paths w l) -> files (fs w') !! p = files (fs w) !! p) /\
  (forall k, ~ In k l ->
     Storage._results_cache (storage w') !! k = Storage._results_cache (storage w) !! k).

(** An element of a batch gets past the two filters of [webhook_handler]:
    it is a dict whose type can be searched and does not hold "NFT" and
    whose source is "PUMP_FUN". *)
Definition passes_filters (tx_data : json) : bool :=
  match tx_data with
  | JDict d =>
      match py_in "NFT" (default (JStr "") (d !! "type")) with
      | inr false => str_eq_json "PUMP_FUN" (default (JStr "") (d !! "source"))
      | _ => false
      end
  | _ => false
  end.

(** The batch of a request body: the body when it is a list, and the list
    of the body alone otherwise. *)
Definition batch_of (body : json) : list json :=
  match body with
  | JList l => l
  | _ => [body]
  end.

(** ** Sample inputs for the rest of the code *)

(** A fresh world where no path can be written. *)
Definition w_locked : World := fresh_world (fun _ => false).

(** Every directory is there or can be made. *)
Definition makedirs_ok : string -> res unit := fun _ => inr tt.

(** Two transactions in one slot, and a third. *)
Definition bundle_of_two : list HeliusTransaction.t :=
  [sample_tx "a" 1 0 [] []; sample_tx "b" 1 0 [] []].
Definition one_more : list HeliusTransaction.t := [sample_tx "c" 2 0 [] []].

(** The results a run of the pipeline returned, and none when it raised. *)
Definition results_of (o : World * res (list ScamDetectionResult.t))
  : list ScamDetectionResult.t :=
  match snd o with
  | inr rs => rs
  | inl _ => []
  end.

(** A validation that accepts a dict whose signature is a string, and
    makes of it a transaction with that signature for the mint "Mpump". *)
Definition sample_validate (d : gmap string json) : res HeliusTransaction.t :=
  match d !! "signature" with
  | Some (JStr s) => inr (sample_tx s 100 7 [] ["Mpump"])
  | _ => raise ValidationError
  end.

(** A swap on pump.fun, an NFT sale, a swap elsewhere, and a number. *)
Definition pump_swap : gmap string json :=
  {[ "type" := JStr "SWAP"; "source" := JStr "PUMP_FUN"; "signature" := JStr "sigA" ]}.
Definition nft_sale : gmap string json :=
  {[ "type" := JStr "NFT_SALE"; "source" := JStr "PUMP_FUN"; "signature" := JStr "s1" ]}.
Definition raydium_swap : gmap string json :=
  {[ "type" := JStr "SWAP"; "source" := JStr "RAYDIUM"; "signature" := JStr "s2" ]}.
Definition filtered_batch : json :=
  JList [JDict nft_sale; JDict raydium_swap; JInt 3].

(** A response with a URI at the top level and another under "metadata". *)
Definition two_uris : gmap string json :=
  {[ "uri" := JStr "https://ipfs.io/a";
     "metadata" := JDict {[ "uri" := JStr "https://example.org/b" ]} ]}.

(** * Properties *)

(** ** Bundle-pattern detection *)

Lemma slots_met_In s txs :
  In s (slots_met txs) <-> exists tx, In tx txs /\ HeliusTransaction.slot tx = s.
Proof.
  induction txs as [|x l IH]; simpl.
  - split; [tauto | intros (tx & [] & _)].
  - rewrite filter_In, IH. split.
    + intros [<- | [(tx & Hin & Hs) _]]; eauto.
    + intros (tx & [-> | Hin] & Hs); [now left|].
      destruct (Z.eq_dec (HeliusTransaction.slot x) s) as [->|Hne]; [now left|].
      right. split; [eauto|]. apply negb_true_iff, Z.eqb_neq. congruence.
Qed.

Lemma slots_met_NoDup txs : List.NoDup (slots_met txs).
Proof.
  induction txs as [|x l IH]; simpl; constructor.
  - rewrite filter_In. intros [_ H]. apply negb_true_iff, Z.eqb_neq in H. congruence.
  - now apply List.NoDup_filter.
Qed.

Lemma slots_met_snoc p x :
  slots_met (p ++ [x]) =
    if existsb (Z.eqb (HeliusTransaction.slot x)) (slots_met p)
    then slots_met p else slots_met p ++ [HeliusTransaction.slot x].
Proof.
  induction p as [|y p IH]; simpl; [reflexivity|].
  rewrite IH. destruct (Z.eqb_spec (HeliusTransaction.slot x) (HeliusTransaction.slot y)) as [E|NE]; simpl.
  - destruct (existsb _ (slots_met p)); [reflexivity|].
    rewrite List.filter_app. simpl. rewrite E, Z.eqb_refl. simpl. now rewrite app_nil_r.
  - assert (Hex : forall L, existsb (Z.eqb (HeliusTransaction.slot x))
              (List.filter (fun s => negb (s =? HeliusTransaction.slot y)%Z) L)
            = existsb (Z.eqb (HeliusTransaction.slot x)) L).
    { induction L as [|a L IHL]; simpl; [reflexivity|].
      destruct (Z.eqb_spec a (HeliusTransaction.slot y)) as [->|Hay]; simpl.
      - rewrite IHL. destruct (Z.eqb_spec (HeliusTransaction.slot x) (HeliusTransaction.slot y)); [contradiction|reflexivity].
      - now rewrite IHL. }
    rewrite Hex. destruct (existsb _ (slots_met p)); [reflexivity|].
    rewrite List.filter_app. simpl.
    destruct (Z.eqb_spec (HeliusTransaction.slot x) (HeliusTransaction.slot y)); [contradiction|reflexivity].
Qed.

Lemma contains_keys {V} k (g : Z -> V) L :
  PyDict.contains k (map (fun s => (s, g s)) L) = existsb (Z.eqb k) L.
Proof.
  unfold PyDict.contains. induction L as [|a L IH]; simpl; [reflexivity|].
  now rewrite IH, (Z.eqb_sym a k).
Qed.

Lemma set_absent {V} k (v : V) d :
  PyDict.contains k d = false -> PyDict.set k v d = d ++ [(k, v)].
Proof.
  unfold PyDict.contains. induction d as [|[k' v'] d IH]; simpl; [reflexivity|].
  intros H. apply orb_false_iff in H as [Hk Hd]. rewrite Hk. now rewrite IH.
Qed.

Lemma update_last {V} k (f : V -> V) v d :
  PyDict.contains k d = false ->
  PyDict.update k f (d ++ [(k, v)]) = d ++ [(k, f v)].
Proof.
  unfold PyDict.contains. induction d as [|[k' v'] d IH]; simpl.
  - now rewrite Z.eqb_refl.
  - intros H. apply orb_false_iff in H as [Hk Hd]. rewrite Hk. now rewrite IH.
Qed.

Lemma update_absent {V} k (f : V -> V) d :
  PyDict.contains k d = false -> PyDict.update k f d = d.
Proof.
  unfold PyDict.contains. induction d as [|[k' v'] d IH]; simpl; [reflexivity|].
  intros H. apply orb_false_iff in H as [Hk Hd]. rewrite Hk. now rewrite IH.
Qed.

Lemma update_present {V} k (f : V -> V) (g g' : Z -> V) L :
  List.NoDup L -> In k L ->
  (forall s, s <> k -> g' s = g s) -> g' k = f (g k) ->
  PyDict.update k f (map (fun s => (s, g s)) L) = map (fun s => (s, g' s)) L.
Proof.
  intros HL Hin Hne Hk. induction HL as [|a L Ha HL IH]; simpl; [destruct Hin|].
  destruct (Z.eqb_spec a k) as [->|Hak].
  - rewrite Hk. f_equal. apply map_ext_in. intros s Hs.
    rewrite Hne; [reflexivity|]. intros ->. contradiction.
  - rewrite (Hne a Hak). f_equal. apply IH. destruct Hin; [contradiction|assumption].
Qed.

Lemma slot_group_snoc s p x :
  slot_group s (p ++ [x]) = slot_group s p ++ (if in_slot s x then [x] else []).
Proof. unfold slot_group. rewrite List.filter_app. simpl. now destruct (in_slot s x). Qed.

Lemma slot_group_absent s p :
  ~ In s (slots_met p) -> slot_group s p = [].
Proof.
  intros H. unfold slot_group.
  induction p as [|y p IH]; simpl; [reflexivity|].
  unfold in_slot at 1. destruct (Z.eqb_spec (HeliusTransaction.slot y) s) as [E|NE].
  - exfalso. apply H. apply slots_met_In. exists y. split; [now left|assumption].
  - apply IH. intros Hs. apply H. apply slots_met_In. apply slots_met_In in Hs as (tx & Hin & Hs).
    exists tx. split; [now right|assumption].
Qed.

Lemma group_by_slot_spec txs :
  group_by_slot txs = map (fun s => (s, slot_group s txs)) (slots_met txs).
Proof.
  induction txs as [|x p IH] using rev_ind; [reflexivity|].
  unfold group_by_slot in *. rewrite fold_left_app. simpl. rewrite IH. clear IH.
  rewrite contains_keys, slots_met_snoc.
  destruct (existsb _ (slots_met p)) eqn:Hex; simpl.
  - apply update_present.
    + apply slots_met_NoDup.
    + apply existsb_exists in Hex as (s & Hs & E). apply Z.eqb_eq in E. now subst.
    + intros s Hs. rewrite slot_group_snoc. unfold in_slot.
      destruct (Z.eqb_spec (HeliusTransaction.slot x) s); [congruence|]. now rewrite app_nil_r.
    + rewrite slot_group_snoc. unfold in_slot. now rewrite Z.eqb_refl.
  - assert (Hc : PyDict.contains (HeliusTransaction.slot x)
               (map (fun s => (s, slot_group s p)) (slots_met p)) = false)
      by now rewrite contains_keys.
    rewrite (set_absent _ _ _ Hc), (update_last _ _ _ _ Hc).
    rewrite map_app. simpl. f_equal.
    + apply map_ext_in. intros s Hs. rewrite slot_group_snoc. unfold in_slot.
      destruct (Z.eqb_spec (HeliusTransaction.slot x) s) as [E|NE]; [|now rewrite app_nil_r].
      exfalso. subst s. assert (existsb (Z.eqb (HeliusTransaction.slot x)) (slots_met p) = true).
      { apply existsb_exists. exists (HeliusTransaction.slot x). split; [assumption|apply Z.eqb_refl]. }
      congruence.
    + rewrite slot_group_snoc. unfold in_slot. rewrite Z.eqb_refl.
      rewrite slot_group_absent; [reflexivity|].
      intros Hin. assert (existsb (Z.eqb (HeliusTransaction.slot x)) (slots_met p) = true).
      { apply existsb_exists. exists (HeliusTransaction.slot x). split; [assumption|apply Z.eqb_refl]. }
      congruence.
Qed.

Lemma first_bundle_groups T L :
  first_bundle (map (fun s => (s, slot_group s T)) L) =
    match List.find (fun s => (2 <=? slot_count s T)%Z) L with
    | Some s => (true, Some (slot_count s T))
    | None => (false, None)
    end.
Proof.
  induction L as [|s L IH]; simpl; [reflexivity|].
  fold (slot_count s T). destruct (2 <=? slot_count s T)%Z; [reflexivity|apply IH].
Qed.

Lemma find_filter_implied {A} (c q : A -> bool) L :
  (forall a, c a = true -> q a = true) ->
  List.find c (List.filter q L) = List.find c L.
Proof.
  intros H. induction L as [|a L IH]; simpl; [reflexivity|].
  destruct (q a) eqn:Hq; simpl.
  - now rewrite IH.
  - destruct (c a) eqn:Hc; [|assumption]. apply H in Hc. congruence.
Qed.

Lemma find_slots_met (c : Z -> bool) l :
  List.find c (slots_met l) =
    option_map HeliusTransaction.slot
      (List.find (fun tx => c (HeliusTransaction.slot tx)) l).
Proof.
  induction l as [|x l IH]; simpl; [reflexivity|].
  destruct (c (HeliusTransaction.slot x)) eqn:Hc; [reflexivity|].
  rewrite find_filter_implied; [assumption|].
  intros a Ha. apply negb_true_iff, Z.eqb_neq. congruence.
Qed.

Lemma slot_count_le_length s txs : (slot_count s txs <= Z.of_nat (length txs))%Z.
Proof.
  unfold slot_count, slot_group. apply inj_le. apply List.filter_length_le.
Qed.

Lemma check_bundle_pattern_first txs :
  _check_bundle_pattern txs =
    match first_bundled txs with
    | Some tx => (true, Some (slot_count (HeliusTransaction.slot tx) txs))
    | None => (false, None)
    end.
Proof.
  unfold _check_bundle_pattern, first_bundled.
  destruct (Z.ltb_spec (Z.of_nat (length txs)) 2) as [Hlt|Hge].
  - destruct (List.find _ txs) as [tx|] eqn:Hf; [|reflexivity].
    apply List.find_some in Hf as [_ Hf]. apply Z.leb_le in Hf.
    pose proof (slot_count_le_length (HeliusTransaction.slot tx) txs). lia.
  - unfold PyDict.items. rewrite group_by_slot_spec, first_bundle_groups, find_slots_met.
    now destruct (List.find _ txs).
Qed.

Lemma find_first {A} (P : A -> bool) l x :
  List.find P l = Some x ->
  exists pre post, l = pre ++ x :: post /\ P x = true /\
    forall y, In y pre -> P y = false.
Proof.
  induction l as [|a l IH]; simpl; [discriminate|].
  destruct (P a) eqn:Ha.
  - intros [= ->]. exists [], l. repeat split; [assumption|intros y []].
  - intros H. apply IH in H as (pre & post & -> & Hx & Hpre).
    exists (a :: pre), post. repeat split; [assumption|].
    intros y [<-|Hy]; auto.
Qed.

Lemma filter_two {A} (P : A -> bool) (l : list A) i j a b :
  (i < j)%nat -> l !! i = Some a -> l !! j = Some b -> P a = true -> P b = true ->
  (2 <= length (List.filter P l))%nat.
Proof.
  revert i j. induction l as [|x l IH]; intros i j Hij Hi Hj Ha Hb; [discriminate|].
  destruct i as [|i]; simpl in *.
  - injection Hi as ->. rewrite Ha. simpl.
    destruct j as [|j]; [lia|]. simpl in Hj.
    assert (1 <= length (List.filter P l))%nat; [|lia].
    apply list_elem_of_lookup_2 in Hj. apply list_elem_of_In in Hj.
    assert (In b (List.filter P l)) by (apply filter_In; auto).
    destruct (List.filter P l); [contradiction|simpl; lia].
  - destruct j as [|j]; [lia|]. simpl in Hj.
    assert (2 <= length (List.filter P l))%nat by (eapply (IH i j); eauto; lia).
    destruct (P x); simpl; lia.
Qed.

Lemma two_in_filter {A} (P : A -> bool) (l : list A) :
  (2 <= length (List.filter P l))%nat ->
  exists i j a b, (i < j)%nat /\ l !! i = Some a /\ l !! j = Some b /\
    P a = true /\ P b = true.
Proof.
  induction l as [|x l IH]; simpl; [lia|].
  destruct (P x) eqn:Hx; simpl.
  - intros H. destruct (List.filter P l) as [|b r] eqn:Hf; [simpl in H; lia|].
    assert (Hb : In b (List.filter P l)) by (rewrite Hf; now left).
    apply filter_In in Hb as [Hb Pb]. apply list_elem_of_In, list_elem_of_lookup in Hb as [j Hj].
    exists 0%nat, (S j), x, b. repeat split; auto; lia.
  - intros H. apply IH in H as (i & j & a & b & Hij & Hi & Hj & Ha & Hb).
    exists (S i), (S j), a, b. repeat split; auto; lia.
Qed.

Lemma shares_slot_count txs :
  shares_slot txs <->
  exists tx, In tx txs /\ (2 <= slot_count (HeliusTransaction.slot tx) txs)%Z.
Proof.
  split.
  - intros (i & j & t1 & t2 & Hij & Hi & Hj & Hs).
    exists t1. split; [apply list_elem_of_In; eapply list_elem_of_lookup_2; eauto|].
    unfold slot_count, slot_group.
    assert (2 <= length (List.filter (in_slot (HeliusTransaction.slot t1)) txs))%nat; [|lia].
    destruct (Nat.lt_total i j) as [H|[H|H]]; [|contradiction|].
    + eapply (filter_two _ _ i j); eauto; unfold in_slot; apply Z.eqb_eq; congruence.
    + eapply (filter_two _ _ j i); eauto; unfold in_slot; apply Z.eqb_eq; congruence.
  - intros (tx & _ & H). unfold slot_count, slot_group in H.
    destruct (two_in_filter (in_slot (HeliusTransaction.slot tx)) txs) as (i & j & a & b & Hij & Hi & Hj & Ha & Hb); [lia|].
    exists i, j, a, b. unfold in_slot in *. apply Z.eqb_eq in Ha, Hb.
    repeat split; auto; [lia|congruence].
Qed.

Lemma le_fold_max {A} (f : A -> Z) x l :
  In x l -> (f x <= fold_right Z.max 0 (map f l))%Z.
Proof.
  induction l as [|y l IH]; simpl; [intros []|].
  intros [->|H]; [lia|]. specialize (IH H). lia.
Qed.

Lemma slot_count_le_largest tx txs :
  In tx txs -> (slot_count (HeliusTransaction.slot tx) txs <= largest_group txs)%Z.
Proof.
  intros H. unfold largest_group.
  apply (le_fold_max (fun t => slot_count (HeliusTransaction.slot t) txs) tx txs H).
Qed.

(** C2, amended: fewer than two transactions give no bundle; when two or
    more transactions share a slot, [has_bundle] is true and the evidence
    is the size of the group of the first transaction of the log whose slot
    holds two or more, which is at most the size of the largest group;
    when no two share a slot there is no bundle. *)
Theorem check_bundle_pattern_first_group (txs : list HeliusTransaction.t) :
  ((length txs < 2)%nat -> _check_bundle_pattern txs = (false, None)) /\
  (shares_slot txs ->
     exists pre tx post,
       txs = pre ++ tx :: post /\
       (forall t, In t pre -> (slot_count (HeliusTransaction.slot t) txs < 2)%Z) /\
       (2 <= slot_count (HeliusTransaction.slot tx) txs <= largest_group txs)%Z /\
       _check_bundle_pattern txs =
         (true, Some (slot_count (HeliusTransaction.slot tx) txs))) /\
  (~ shares_slot txs -> _check_bundle_pattern txs = (false, None)).
Proof.
  split; [|split].
  - intros H. unfold _check_bundle_pattern.
    destruct (Z.ltb_spec (Z.of_nat (length txs)) 2); [reflexivity|lia].
  - intros H. apply shares_slot_count in H as (t0 & Hin & Hc).
    rewrite check_bundle_pattern_first. unfold first_bundled.
    destruct (List.find _ txs) as [tx|] eqn:Hf.
    + destruct (find_first _ _ _ Hf) as (pre & post & E & Hx & Hpre).
      exists pre, tx, post. apply Z.leb_le in Hx. repeat split; auto.
      * intros t Ht. specialize (Hpre t Ht). apply Z.leb_gt in Hpre. exact Hpre.
      * apply slot_count_le_largest. rewrite E. apply in_app_iff. right. now left.
    + eapply List.find_none in Hf; [|exact Hin]. apply Z.leb_gt in Hf. lia.
  - intros H. rewrite check_bundle_pattern_first. unfold first_bundled.
    destruct (List.find _ txs) as [tx|] eqn:Hf; [|reflexivity].
    exfalso. apply H. apply shares_slot_count. apply List.find_some in Hf as [Hin Hf].
    exists tx. split; [assumption|]. now apply Z.leb_le.
Qed.

(** ** Large-purchase detection *)

Section LargePurchase.
Local Open Scope Q_scope.

Variable rnd : Q -> Q.

Lemma float_gt_spec x y : float_gt x y = true <-> y < x.
Proof.
  unfold float_gt. rewrite negb_true_iff. split.
  - intros H. apply Qnot_le_lt. intros Hle. apply Qle_bool_iff in Hle. congruence.
  - intros H. destruct (Qle_bool x y) eqn:E; [|reflexivity]. apply Qle_bool_iff in E.
    exfalso. eapply Qlt_not_le; eauto.
Qed.

Lemma float_gt_false x y : float_gt x y = false <-> x <= y.
Proof.
  unfold float_gt. rewrite negb_false_iff. apply Qle_bool_iff.
Qed.

Lemma large_purchase_loops txs m0 :
  fold_left
    (fun (max_sol_amount : Q) tx =>
       fold_left
         (fun (max_sol_amount : Q) transfer =>
            let sol_amount := truediv rnd (NativeTransfer.amount transfer) LAMPORTS_PER_SOL in
            if float_gt sol_amount max_sol_amount then sol_amount else max_sol_amount)
         (HeliusTransaction.nativeTransfers tx) max_sol_amount)
    txs m0
  = fold_left (keep_max rnd) (native_amounts txs) m0.
Proof.
  revert m0. induction txs as [|tx txs IH]; intros m0; simpl; [reflexivity|].
  rewrite fold_left_app, IH. f_equal.
  generalize (HeliusTransaction.nativeTransfers tx). clear.
  intros l. revert m0. induction l as [|t l IH]; intros m0; simpl; [reflexivity|].
  now rewrite IH.
Qed.

Lemma keep_max_ge l m0 : m0 <= fold_left (keep_max rnd) l m0.
Proof.
  revert m0. induction l as [|a l IH]; intros m0; simpl; [apply Qle_refl|].
  eapply Qle_trans; [|apply IH]. unfold keep_max.
  destruct (float_gt _ m0) eqn:E; [|apply Qle_refl].
  apply float_gt_spec in E. now apply Qlt_le_weak.
Qed.

Lemma keep_max_bound l m0 a :
  In a l -> truediv rnd a LAMPORTS_PER_SOL <= fold_left (keep_max rnd) l m0.
Proof.
  revert m0. induction l as [|b l IH]; intros m0; simpl; [intros []|].
  intros [->|H]; [|now apply IH].
  eapply Qle_trans; [|apply keep_max_ge]. unfold keep_max.
  destruct (float_gt _ m0) eqn:E; [apply Qle_refl|]. now apply float_gt_false.
Qed.

Lemma keep_max_attained l m0 :
  fold_left (keep_max rnd) l m0 = m0 \/
  exists a, In a l /\ fold_left (keep_max rnd) l m0 = truediv rnd a LAMPORTS_PER_SOL.
Proof.
  revert m0. induction l as [|b l IH]; intros m0; simpl; [now left|].
  destruct (IH (keep_max rnd m0 b)) as [E|(a & Ha & E)].
  - rewrite E. unfold keep_max. destruct (float_gt _ m0); [right; exists b; auto|now left].
  - right. exists a. auto.
Qed.

Lemma max_amount_spec l m :
  max_amount l = Some m -> In m l /\ forall a, In a l -> (a <= m)%Z.
Proof.
  destruct l as [|a0 l]; simpl; [discriminate|]. intros [= <-].
  revert a0. induction l as [|b l IH]; intros a0; simpl.
  - split; [now left|]. intros a [->|[]]. lia.
  - destruct (IH (Z.max a0 b)) as [Hin Hle]. split.
    + destruct Hin as [E|Hin]; [|auto]. rewrite <- E. lia.
    + intros a [->|[->|H]].
      * specialize (Hle (Z.max a b) (or_introl eq_refl)). lia.
      * specialize (Hle (Z.max a0 a) (or_introl eq_refl)). lia.
      * apply Hle. now right.
Qed.

Lemma max_amount_some l a : In a l -> exists m, max_amount l = Some m.
Proof. destruct l; [intros []|]. simpl. eauto. Qed.

Lemma sol_gt_30 (a : Z) :
  30 < inject_Z a / inject_Z LAMPORTS_PER_SOL <-> (30 * LAMPORTS_PER_SOL < a)%Z.
Proof.
  unfold LAMPORTS_PER_SOL, Qlt, Qdiv, Qmult, Qinv, inject_Z. simpl. lia.
Qed.

Lemma sol_le (a b : Z) :
  (a <= b)%Z ->
  inject_Z a / inject_Z LAMPORTS_PER_SOL <= inject_Z b / inject_Z LAMPORTS_PER_SOL.
Proof.
  unfold LAMPORTS_PER_SOL, Qle, Qdiv, Qmult, Qinv, inject_Z. simpl. lia.
Qed.

Lemma sol_above_next (a : Z) :
  (30 * LAMPORTS_PER_SOL < a)%Z ->
  30 + (1 # 1073741824) <= inject_Z a / inject_Z LAMPORTS_PER_SOL.
Proof.
  unfold LAMPORTS_PER_SOL, Qle, Qdiv, Qmult, Qinv, Qplus, inject_Z. simpl. lia.
Qed.

Lemma representable_30 : representable 30.
Proof. exists 30%Z, 0%Z. repeat split; lia. Qed.

Lemma representable_above_30 : representable (30 + (1 # 1073741824)).
Proof. exists 32212254721%Z, (-30)%Z. repeat split; lia. Qed.

Hypothesis rnd_monotone : monotone rnd.
Hypothesis rnd_exact : exact_on_doubles rnd.

(** The rounded quotient is over the threshold exactly when the exact one
    is: 30.0 and a double between 30.0 and the next quotient of an int are
    their own roundings. *)
Lemma truediv_gt_30 (a : Z) :
  30 < truediv rnd a LAMPORTS_PER_SOL <-> (30 * LAMPORTS_PER_SOL < a)%Z.
Proof.
  unfold truediv. split.
  - intros H. destruct (Z_lt_le_dec (30 * LAMPORTS_PER_SOL) a) as [|Hle]; [assumption|].
    exfalso. apply (Qlt_not_le _ _ H).
    rewrite <- (rnd_exact 30 representable_30). apply rnd_monotone.
    apply Qnot_lt_le. intros Hlt. apply (proj1 (sol_gt_30 a)) in Hlt. lia.
  - intros H. apply sol_above_next in H. apply rnd_monotone in H.
    rewrite (rnd_exact _ representable_above_30) in H.
    eapply Qlt_le_trans; [|exact H]. reflexivity.
Qed.

Lemma check_large_purchase_fold txs :
  _check_large_purchase rnd txs =
    let m := fold_left (keep_max rnd) (native_amounts txs) 0 in
    (float_gt m 30, if float_gt m 30 then Some m else None).
Proof.
  unfold _check_large_purchase. rewrite large_purchase_loops. reflexivity.
Qed.


End LargePurchase.

Lemma exact_monotone : monotone exact.
Proof. intros x y H. exact H. Qed.

Lemma exact_exact_on_doubles : exact_on_doubles exact.
Proof. intros q _. reflexivity. Qed.


(** ** Metadata-URL validation *)

Lemma append_cons a s t : String a s +:+ t = String a (s +:+ t).
Proof. reflexivity. Qed.

Lemma startswith_lower u p :
  startswith (lower u) p = true <-> starts_caseless u p.
Proof.
  unfold startswith, starts_caseless. revert u.
  induction p as [|c p IH]; intros u; simpl.
  - split; [|intros _; now destruct (lower u)]. intros _. exists "", u. split; reflexivity.
  - destruct u as [|d u]; simpl.
    + split; [discriminate|]. intros (pre & rest & E & L).
      destruct pre; simpl in *; discriminate.
    + destruct (ascii_dec c (lower_ascii d)) as [->|NE].
      * rewrite IH. split.
        -- intros (pre & rest & -> & <-). exists (String d pre), rest. split; reflexivity.
        -- intros (pre & rest & E & L). destruct pre as [|d' pre]; simpl in *; [discriminate|].
           rewrite append_cons in E. injection E as -> ->. injection L as L. exists pre, rest. split; [reflexivity|assumption].
      * split; [discriminate|]. intros (pre & rest & E & L).
        destruct pre as [|d' pre]; simpl in *; [discriminate|].
        rewrite append_cons in E. injection E as -> ->. injection L as L _. congruence.
Qed.

Lemma str_truthy_spec s : str_truthy s = true <-> s <> "".
Proof.
  unfold str_truthy. rewrite negb_true_iff. split.
  - intros H ->. discriminate.
  - intros H. apply String.eqb_neq. exact H.
Qed.

Lemma get_token_metadata_total c mint :
  exists o, HeliusClient.get_token_metadata c mint = inr o.
Proof.
  unfold HeliusClient.get_token_metadata.
  destruct (negb _); [eauto|].
  unfold try_except. match goal with |- context [match ?b with inl _ => _ | inr _ => _ end] => destruct b as [e|o] end.
  - simpl. destruct e; eauto.
  - eauto.
Qed.

Lemma get_token_metadata_no_key c mint :
  HeliusClient.api_key c = "" -> HeliusClient.get_token_metadata c mint = inr None.
Proof.
  intros H. unfold HeliusClient.get_token_metadata. now rewrite H.
Qed.

Lemma get_token_metadata_raise c mint e :
  HeliusClient.client c (metadata_url c mint) (HeliusClient.api_key c) = inl e ->
  HeliusClient.get_token_metadata c mint = inr None.
Proof.
  intros H. unfold HeliusClient.get_token_metadata, metadata_url in *.
  destruct (negb _); [reflexivity|]. cbv zeta. rewrite H. simpl. now destruct e.
Qed.

Lemma check_metadata_url_cases self mint :
  _check_metadata_url self mint =
    match HeliusClient.get_token_metadata (ScamDetector.helius_client self) mint with
    | inr (Some md) =>
        match TokenMetadata.uri md with
        | Some u => inr (str_truthy u && negb (startswith (lower u) "https://ipfs.io/"))
        | None => inr false
        end
    | _ => inr false
    end.
Proof.
  unfold _check_metadata_url.
  destruct (HeliusClient.get_token_metadata _ mint) as [e|[md|]]; simpl; try reflexivity.
  destruct (TokenMetadata.uri md) as [u|]; [|reflexivity].
  destruct (str_truthy u); simpl; [|reflexivity].
  now destruct (startswith _ _).
Qed.

(** C4: [_check_metadata_url] never raises; it answers true exactly when the
    fetch gives metadata whose URI is not empty and does not start,
    case-insensitively, with "https://ipfs.io/"; no metadata, no URI, an
    empty URI, no API key and an exception of the request all give false. *)
Theorem check_metadata_url_spec (self : ScamDetector.t) (mint : string) :
  let c := ScamDetector.helius_client self in
  exists b,
    _check_metadata_url self mint = inr b /\
    (b = true <->
       exists md u,
         HeliusClient.get_token_metadata c mint = inr (Some md) /\
         TokenMetadata.uri md = Some u /\ u <> "" /\
         ~ starts_caseless u "https://ipfs.io/") /\
    (HeliusClient.get_token_metadata c mint = inr None -> b = false) /\
    (forall md, HeliusClient.get_token_metadata c mint = inr (Some md) ->
       TokenMetadata.uri md = None \/ TokenMetadata.uri md = Some "" -> b = false) /\
    (HeliusClient.api_key c = "" -> b = false) /\
    (forall e, HeliusClient.client c (metadata_url c mint) (HeliusClient.api_key c) = inl e ->
       b = false).
Proof.
  intros c. rewrite check_metadata_url_cases. fold c.
  assert (Hnone : HeliusClient.get_token_metadata c mint = inr None ->
            exists b, (inr false : res bool) = inr b /\ b = false) by eauto.
  destruct (HeliusClient.get_token_metadata c mint) as [e|[md|]] eqn:Hg.
  - destruct (get_token_metadata_total c mint) as [o Ho]. congruence.
  - destruct (TokenMetadata.uri md) as [u|] eqn:Hu.
    + eexists. split; [reflexivity|]. split; [|repeat split].
      * rewrite andb_true_iff, str_truthy_spec, negb_true_iff. split.
        -- intros [Hne Hs]. exists md, u. repeat split; auto.
           intros Hc. apply startswith_lower in Hc. congruence.
        -- intros (md' & u' & [= <-] & Hu' & Hne & Hs). rewrite Hu in Hu'. injection Hu' as <-.
           split; [assumption|]. destruct (startswith _ _) eqn:E; [|reflexivity].
           apply startswith_lower in E. contradiction.
      * discriminate.
      * intros md' [= <-] [H|H]; rewrite Hu in H; [discriminate|]. now injection H as ->.
      * intros Hk. rewrite (get_token_metadata_no_key c mint Hk) in Hg. discriminate.
      * intros e He. rewrite (get_token_metadata_raise c mint e He) in Hg. discriminate.
    + exists false. split; [reflexivity|]. repeat split; auto.
      * discriminate.
      * intros (md' & u' & [= <-] & Hu' & _). congruence.
  - exists false. split; [reflexivity|]. repeat split; auto.
    + discriminate.
    + intros (md' & u' & [=] & _).
Qed.

(** ** The result of an evaluation *)

Lemma check_metadata_url_total self mint :
  exists b, _check_metadata_url self mint = inr b.
Proof.
  rewrite check_metadata_url_cases.
  destruct (HeliusClient.get_token_metadata _ mint) as [e|[md|]]; eauto.
  destruct (TokenMetadata.uri md); eauto.
Qed.


(** ** The per-token transaction log *)

Lemma is_Some_decide {A} (o : option A) :
  bool_decide (is_Some o) = match o with Some _ => true | None => false end.
Proof.
  destruct o; [apply bool_decide_eq_true_2; eauto|].
  apply bool_decide_eq_false_2. intros [x Hx]. discriminate.
Qed.

Lemma add_transaction_read_spec mint w :
  add_transaction_read mint w =
    (w, inr match mint_file_content w mint with
            | Some (Parsable v) => v
            | _ => TxList []
            end).
Proof.
  unfold add_transaction_read, mint_file_content, io_bind, get_self, path_exists,
    io_try_except, read_json, io_ret.
  rewrite is_Some_decide.
  destruct (files (fs w) !! mint_file (storage w) mint) as [[|v]|] eqn:E;
    cbn; rewrite ?E; reflexivity.
Qed.

Lemma add_transaction_write_spec mint tx l w :
  add_transaction_write mint tx (TxList l) w =
    if existsb (has_signature (HeliusTransaction.signature tx)) l then (w, inr tt)
    else if writable (fs w) (mint_file (storage w) mint)
         then (with_file (mint_file (storage w) mint) (TxList (l ++ [tx])) w, inr tt)
         else (w, inl OSError).
Proof.
  unfold add_transaction_write, io_bind, get_self, io_lift, any_same_signature,
    py_append, write_json, io_ret, with_file. cbn.
  fold (has_signature (HeliusTransaction.signature tx)).
  destruct (existsb _ l); cbn; [reflexivity|].
  destruct (writable _ _); reflexivity.
Qed.

Lemma add_transaction_write_dict mint tx d w :
  exists e, add_transaction_write mint tx (ResultDict d) w = (w, inl e).
Proof.
  unfold add_transaction_write, io_bind, get_self, io_lift, any_same_signature,
    py_append. cbn.
  destruct (bool_decide (d = ∅)); cbn; eauto.
Qed.

Lemma add_transaction_spec mint tx w :
  match log_of w mint with
  | Some l =>
      add_transaction mint tx w =
        if existsb (has_signature (HeliusTransaction.signature tx)) l then (w, inr tt)
        else if writable (fs w) (mint_file (storage w) mint)
             then (with_file (mint_file (storage w) mint) (TxList (l ++ [tx])) w, inr tt)
             else (w, inl OSError)
  | None => exists e, add_transaction mint tx w = (w, inl e)
  end.
Proof.
  unfold add_transaction, io_bind, log_of. rewrite add_transaction_read_spec.
  destruct (mint_file_content w mint) as [[|[l|d]]|];
    try apply add_transaction_write_spec.
  apply add_transaction_write_dict.
Qed.

Lemma get_token_transactions_spec mint w :
  get_token_transactions mint w =
    (w, inr match mint_file_content w mint with
            | Some (Parsable (TxList l)) => l
            | _ => []
            end).
Proof.
  unfold get_token_transactions, mint_file_content, io_bind, get_self, path_exists,
    io_try_except, read_json, io_ret, io_lift, load_transactions.
  rewrite is_Some_decide.
  destruct (files (fs w) !! mint_file (storage w) mint) as [[|[l|d]]|] eqn:E; cbn; rewrite ?E; cbn;
    try reflexivity.
  destruct (bool_decide (d = ∅)); reflexivity.
Qed.

Lemma mint_file_content_with_file mint v w :
  mint_file_content (with_file (mint_file (storage w) mint) v w) mint = Some (Parsable v).
Proof.
  unfold mint_file_content, with_file. cbn. apply lookup_insert_eq.
Qed.

Lemma signature_count_present s l :
  List.NoDup (map HeliusTransaction.signature l) ->
  existsb (has_signature s) l = true -> signature_count s l = 1%nat.
Proof.
  unfold signature_count. induction l as [|t l IH]; cbn; [discriminate|].
  intros Hnd. inversion Hnd as [|? ? Hnotin Hnd']; subst.
  unfold has_signature at 1 3. destruct (String.eqb_spec (HeliusTransaction.signature t) s) as [E|NE]; cbn.
  - intros _. f_equal. subst s.
    assert (Hnone : forall l', ~ In (HeliusTransaction.signature t) (map HeliusTransaction.signature l') ->
              List.filter (has_signature (HeliusTransaction.signature t)) l' = []).
    { induction l' as [|t' l' IH']; cbn; [reflexivity|]. intros Hn.
      unfold has_signature at 1. destruct (String.eqb_spec (HeliusTransaction.signature t') (HeliusTransaction.signature t)) as [E'|NE'].
      - exfalso. apply Hn. now left.
      - apply IH'. intros Hin. apply Hn. now right. }
    now rewrite Hnone.
  - intros H. now apply IH.
Qed.

Lemma signature_count_absent s l :
  existsb (has_signature s) l = false -> signature_count s l = 0%nat.
Proof.
  unfold signature_count. induction l as [|t l IH]; cbn; [reflexivity|].
  intros H. apply orb_false_iff in H as [Ht Hl]. rewrite Ht. now apply IH.
Qed.

Lemma log_of_with_file mint v w :
  log_of (with_file (mint_file (storage w) mint) (TxList v) w) mint = Some v.
Proof. unfold log_of. now rewrite mint_file_content_with_file. Qed.

Lemma existsb_has_signature_app s l t :
  HeliusTransaction.signature t = s ->
  existsb (has_signature s) (l ++ [t]) = true.
Proof.
  intros H. rewrite existsb_app. cbn. unfold has_signature at 2.
  rewrite H, String.eqb_refl. now rewrite orb_true_r.
Qed.

Lemma unique_after_append l tx :
  List.NoDup (map HeliusTransaction.signature l) ->
  existsb (has_signature (HeliusTransaction.signature tx)) l = false ->
  List.NoDup (map HeliusTransaction.signature (l ++ [tx])).
Proof.
  intros Hnd Hex. rewrite map_app. cbn.
  apply NoDup_ListNoDup, NoDup_app. repeat split.
  - now apply NoDup_ListNoDup.
  - intros s Hs Hs'. apply list_elem_of_singleton in Hs'. subst s.
    apply list_elem_of_In, in_map_iff in Hs as (t & E & Hin).
    assert (existsb (has_signature (HeliusTransaction.signature tx)) l = true); [|congruence].
    apply existsb_exists. exists t. split; [assumption|].
    unfold has_signature. rewrite E. apply String.eqb_refl.
  - apply NoDup_singleton.
Qed.

(** C5: when an append for a mint has returned, an append for the same
    mint of a transaction with the same signature changes nothing, the log
    read back is the same, and it holds exactly one entry with that
    signature. *)
Theorem add_transaction_idempotent (w w1 : World) (mint : string)
    (tx tx' : HeliusTransaction.t) :
  log_unique w mint ->
  HeliusTransaction.signature tx' = HeliusTransaction.signature tx ->
  add_transaction mint tx w = (w1, inr tt) ->
  add_transaction mint tx' w1 = (w1, inr tt) /\
  exists l,
    get_token_transactions mint w1 = (w1, inr l) /\
    (add_transaction mint tx' ;; get_token_transactions mint)%io w1 = (w1, inr l) /\
    signature_count (HeliusTransaction.signature tx) l = 1%nat /\
    log_unique w1 mint.
Proof.
  intros Huniq Hsig Hadd.
  pose proof (add_transaction_spec mint tx w) as Hspec.
  destruct (log_of w mint) as [l|] eqn:Hlog; [|destruct Hspec as [e He]; congruence].
  rewrite Hspec in Hadd. clear Hspec.
  assert (Hmain : forall l1, log_of w1 mint = Some l1 ->
            existsb (has_signature (HeliusTransaction.signature tx)) l1 = true ->
            get_token_transactions mint w1 = (w1, inr l1) ->
            List.NoDup (map HeliusTransaction.signature l1) ->
            add_transaction mint tx' w1 = (w1, inr tt) /\
            exists l0,
              get_token_transactions mint w1 = (w1, inr l0) /\
              (add_transaction mint tx' ;; get_token_transactions mint)%io w1 = (w1, inr l0) /\
              signature_count (HeliusTransaction.signature tx) l0 = 1%nat /\
              log_unique w1 mint).
  { intros l1 Hl1 Hex Hget Hnd.
    assert (Hadd' : add_transaction mint tx' w1 = (w1, inr tt)).
    { pose proof (add_transaction_spec mint tx' w1) as H. rewrite Hl1, Hsig, Hex in H. exact H. }
    split; [exact Hadd'|]. exists l1. repeat split.
    - exact Hget.
    - unfold io_bind. rewrite Hadd'. exact Hget.
    - now apply signature_count_present.
    - intros l2 Hl2. congruence. }
  destruct (existsb (has_signature (HeliusTransaction.signature tx)) l) eqn:Hex.
  - injection Hadd as <-. apply (Hmain l Hlog Hex); [|now apply Huniq].
    rewrite get_token_transactions_spec. unfold log_of in Hlog.
    destruct (mint_file_content w mint) as [[|[l'|d]]|]; try discriminate;
      try (injection Hlog as <-; discriminate Hex).
    now injection Hlog as ->.
  - destruct (writable (fs w) (mint_file (storage w) mint)); [|discriminate].
    injection Hadd as <-. apply (Hmain (l ++ [tx])).
    + apply log_of_with_file.
    + now apply existsb_has_signature_app.
    + rewrite get_token_transactions_spec.
      change (storage (with_file (mint_file (storage w) mint) (TxList (l ++ [tx])) w)) with (storage w).
      now rewrite mint_file_content_with_file.
    + apply unique_after_append; [now apply Huniq|assumption].
Qed.

(** ** Mint extraction *)

Lemma str_truthy_false s : str_truthy s = false <-> s = "".
Proof.
  unfold str_truthy. rewrite negb_false_iff. apply String.eqb_eq.
Qed.

Lemma collect_mints {A} (f : A -> string) (l : list A) (s0 : gset string) (m : string) :
  m ∈ fold_left (fun (mints : gset string) x =>
                   if str_truthy (f x) then mints ∪ {[f x]} else mints) l s0
  <-> m ∈ s0 \/ (In m (map f l) /\ m <> "").
Proof.
  revert s0. induction l as [|x l IH]; intros s0; cbn.
  - tauto.
  - rewrite IH. destruct (str_truthy (f x)) eqn:E.
    + apply str_truthy_spec in E. rewrite elem_of_union, elem_of_singleton.
      split; [intros [[H| ->]|[H1 H2]]|intros [H|[[H|H] H2]]]; subst; auto.
    + apply str_truthy_false in E.
      split; [intros [H|[H1 H2]]|intros [H|[[H|H] H2]]]; subst; auto. congruence.
Qed.

Lemma collect_account_mints (l : list AccountData.t) (s0 : gset string) (m : string) :
  m ∈ fold_left
        (fun (mints : gset string) account_data =>
           fold_left
             (fun (mints : gset string) balance_change =>
                if str_truthy (TokenBalanceChange.mint balance_change)
                then mints ∪ {[TokenBalanceChange.mint balance_change]} else mints)
             (AccountData.tokenBalanceChanges account_data) mints) l s0
  <-> m ∈ s0 \/
      (In m (flat_map (fun a => map TokenBalanceChange.mint (AccountData.tokenBalanceChanges a)) l)
       /\ m <> "").
Proof.
  revert s0. induction l as [|a l IH]; intros s0; cbn.
  - tauto.
  - rewrite IH, (collect_mints TokenBalanceChange.mint), in_app_iff. tauto.
Qed.

Lemma extract_mints_set_spec tx m :
  m ∈ _extract_mints_set tx <-> In m (mentioned_mints tx) /\ m <> "".
Proof.
  unfold _extract_mints_set, mentioned_mints.
  rewrite collect_account_mints, (collect_mints TokenTransfer.mint), in_app_iff.
  rewrite elem_of_empty. tauto.
Qed.

Lemma extract_mints_spec tx m :
  In m (_extract_mints tx) <-> In m (mentioned_mints tx) /\ m <> "".
Proof.
  unfold _extract_mints. rewrite <- list_elem_of_In, elem_of_elements.
  apply extract_mints_set_spec.
Qed.

Lemma analyze_transaction_no_mint rnd self tx w :
  _extract_mints tx = [] -> analyze_transaction rnd self tx w = (w, inr []).
Proof.
  intros H. unfold analyze_transaction. now rewrite H.
Qed.

(** C6, amended: [_extract_mints] lists, each once, the mint fields of the
    token transfers and balance changes that are not the empty string; when
    there is none the pipeline returns the empty list and leaves the world
    as it is. *)
Theorem extract_mints_distinct_nonempty (tx : HeliusTransaction.t) :
  (forall m, In m (_extract_mints tx) <-> In m (mentioned_mints tx) /\ m <> "") /\
  List.NoDup (_extract_mints tx) /\
  (_extract_mints tx = [] ->
     forall rnd self w, analyze_transaction rnd self tx w = (w, inr [])).
Proof.
  split; [|split].
  - apply extract_mints_spec.
  - unfold _extract_mints. apply NoDup_ListNoDup. apply NoDup_elements.
  - intros H rnd self w. now apply analyze_transaction_no_mint.
Qed.

(** C10: the empty string is never extracted, and a transaction whose mint
    fields are all empty has no mint: the pipeline returns the empty list
    and leaves the world as it is. *)
Theorem extract_mints_skips_empty (tx : HeliusTransaction.t) :
  ~ In "" (_extract_mints tx) /\
  ((forall m, In m (mentioned_mints tx) -> m = "") ->
     _extract_mints tx = [] /\
     forall rnd self w, analyze_transaction rnd self tx w = (w, inr [])).
Proof.
  split.
  - rewrite extract_mints_spec. tauto.
  - intros H. assert (E : _extract_mints tx = []).
    { destruct (_extract_mints tx) as [|m l] eqn:E; [reflexivity|]. exfalso.
      assert (Hm : In m (_extract_mints tx)) by (rewrite E; now left).
      apply extract_mints_spec in Hm as [Hm Hne]. auto. }
    split; [exact E|]. intros rnd self w. now apply analyze_transaction_no_mint.
Qed.

(** ** Persisting a result *)

Lemma save_result_spec result w :
  save_result result w =
    if writable (fs w) (Storage.results_file (storage w))
    then ({| storage := cached result (storage w);
             fs := {| files :=
                        <[Storage.results_file (storage w) :=
                            Parsable (ResultDict (Storage._results_cache (cached result (storage w))))]>
                          (files (fs w));
                      writable := writable (fs w) |} |}, inr tt)
    else ({| storage := cached result (storage w); fs := fs w |}, inr tt).
Proof.
  unfold save_result, io_bind, get_self, put_self, io_try_except, write_json, io_ret, cached.
  cbn. destruct (writable (fs w) (Storage.results_file (storage w))); reflexivity.
Qed.

Lemma save_result_returns result w :
  exists w', save_result result w = (w', inr tt) /\
    Storage._results_cache (storage w') !! ScamDetectionResult.mint result = Some result.
Proof.
  rewrite save_result_spec. destruct (writable _ _); eexists; (split; [reflexivity|]);
    cbn; apply lookup_insert_eq.
Qed.

Lemma analyze_token_returns rnd self mint transactions current_tx :
  exists r, _analyze_token rnd self mint transactions current_tx = inr r /\
    ScamDetectionResult.mint r = mint.
Proof.
  unfold _analyze_token.
  destruct (_check_bundle_pattern transactions) as [has_bundle bundle_gap].
  destruct (_check_large_purchase rnd transactions) as [has_large max_sol].
  destruct (check_metadata_url_total self mint) as [invalid_metadata ->].
  cbn [res_bind].
  destruct has_bundle, has_large, invalid_metadata, (_check_mint_suffix mint);
    eexists; split; reflexivity.
Qed.

Lemma analyze_mint_spec rnd self tx mint results w w1 log r :
  add_transaction mint tx w = (w1, inr tt) ->
  get_token_transactions mint w1 = (w1, inr log) ->
  _analyze_token rnd self mint log tx = inr r ->
  analyze_mint rnd self tx mint results w =
    (fst (save_result r w1), inr (results ++ [r])).
Proof.
  intros Hadd Hget Hr. unfold analyze_mint, io_bind, io_lift, io_ret.
  rewrite Hadd, Hget, Hr.
  destruct (save_result_returns r w1) as (w2 & -> & _). reflexivity.
Qed.


(** ** The bookkeeping of an evaluation *)

Lemma py_min_earliest x l : earliest (x :: l) (py_min x l).
Proof.
  unfold py_min. revert x. induction l as [|y l IH]; intros x; cbn.
  - split; [now left|]. intros t' [<-|[]]. lia.
  - destruct (IH (Z.min x y)) as [Hin Hle]. split.
    + destruct Hin as [E|Hin]; [|right; right; exact Hin]. rewrite <- E.
      destruct (Z.min_spec x y) as [[_ H]|[_ H]]; rewrite H; [now left|right; now left].
    + intros t' [E|[E|H]].
      * specialize (Hle (Z.min x y) (or_introl eq_refl)). lia.
      * specialize (Hle (Z.min x y) (or_introl eq_refl)). lia.
      * apply Hle. now right.
Qed.

Lemma log_after_append mint tx w w1 :
  add_transaction mint tx w = (w1, inr tt) ->
  exists l, log_of w1 mint = Some l /\
    get_token_transactions mint w1 = (w1, inr l) /\
    existsb (has_signature (HeliusTransaction.signature tx)) l = true.
Proof.
  intros Hadd. pose proof (add_transaction_spec mint tx w) as Hspec.
  destruct (log_of w mint) as [l|] eqn:Hlog; [|destruct Hspec as [e He]; congruence].
  rewrite Hspec in Hadd. clear Hspec.
  destruct (existsb (has_signature (HeliusTransaction.signature tx)) l) eqn:Hex.
  - injection Hadd as <-. exists l. split; [assumption|]. split; [|assumption].
    rewrite get_token_transactions_spec. unfold log_of in Hlog.
    destruct (mint_file_content w mint) as [[|[l'|d]]|]; try discriminate;
      try (injection Hlog as <-; discriminate Hex).
    now injection Hlog as ->.
  - destruct (writable (fs w) (mint_file (storage w) mint)); [|discriminate].
    injection Hadd as <-. exists (l ++ [tx]). split; [apply log_of_with_file|]. split.
    + rewrite get_token_transactions_spec.
      change (storage (with_file (mint_file (storage w) mint) (TxList (l ++ [tx])) w)) with (storage w).
      now rewrite mint_file_content_with_file.
    + now apply existsb_has_signature_app.
Qed.


(** ** Two invocations for one mint *)

Lemma analyze_mint_inv rnd self tx mint results w w' rs :
  analyze_mint rnd self tx mint results w = (w', inr rs) ->
  exists w1 log r,
    add_transaction mint tx w = (w1, inr tt) /\
    get_token_transactions mint w1 = (w1, inr log) /\
    _analyze_token rnd self mint log tx = inr r /\
    save_result r w1 = (w', inr tt) /\
    rs = results ++ [r].
Proof.
  unfold analyze_mint, io_bind, io_lift, io_ret. intros H.
  destruct (add_transaction mint tx w) as [w1 [e|[]]] eqn:Hadd; [discriminate|].
  pose proof (get_token_transactions_spec mint w1) as Hget. rewrite Hget in H.
  destruct (_analyze_token rnd self mint _ tx) as [e|r] eqn:Hr; [discriminate|].
  destruct (save_result r w1) as [w2 [e|[]]] eqn:Hsave; [discriminate|].
  injection H as <- <-. eexists w1, _, r. repeat split; eauto.
Qed.

Lemma add_transaction_inv mint tx w w1 :
  add_transaction mint tx w = (w1, inr tt) ->
  exists v, add_transaction_read mint w = (w, inr v) /\
            add_transaction_write mint tx v w = (w1, inr tt).
Proof.
  unfold add_transaction, io_bind. rewrite add_transaction_read_spec. eauto.
Qed.

(** The five steps of a coroutine that runs alone are one pass of the loop
    body. *)
Lemma run_alone rnd self tx mint w w' r :
  analyze_mint rnd self tx mint [] w = (w', inr [r]) ->
  exists t1 t2 t3 t4 w1,
    step_task rnd self (start mint tx) w = (w, t1) /\
    step_task rnd self t1 w = (w1, t2) /\
    step_task rnd self t2 w1 = (w1, t3) /\
    step_task rnd self t3 w1 = (w1, t4) /\
    step_task rnd self t4 w1 = (w', finished mint tx r).
Proof.
  intros H. apply analyze_mint_inv in H as (w1 & log & r' & Hadd & Hget & Hr & Hsave & E).
  injection E as E. rewrite E in *. clear E r.
  apply add_transaction_inv in Hadd as (v & Hread & Hwrite).
  exists {| task_mint := mint; task_transaction := tx; task_pc := PcAddWrite v |},
    {| task_mint := mint; task_transaction := tx; task_pc := PcReadAll |},
    {| task_mint := mint; task_transaction := tx; task_pc := PcAnalyze log |},
    {| task_mint := mint; task_transaction := tx; task_pc := PcSave r' |}, w1.
  unfold step_task, start, finished. cbn [task_mint task_transaction task_pc].
  unfold step_pc, advance, io_lift.
  rewrite Hread, Hwrite, Hget, Hr, Hsave. repeat split.
Qed.

Lemma mint_file_cached r s mint : mint_file (cached r s) mint = mint_file s mint.
Proof. reflexivity. Qed.

(** Saving a result leaves the log of a mint as it is, or makes the file
    of the mint one that holds no log. *)
Lemma save_result_log r w w' mint l :
  save_result r w = (w', inr tt) -> log_of w' mint = Some l ->
  mint_file_content w' mint = mint_file_content w mint.
Proof.
  rewrite save_result_spec. unfold log_of, mint_file_content.
  destruct (writable (fs w) (Storage.results_file (storage w))).
  - intros [= <-]. cbn.
    destruct (decide (Storage.results_file (storage w) = mint_file (storage w) mint)) as [E|NE].
    + rewrite E, lookup_insert_eq. discriminate.
    + now rewrite lookup_insert_ne.
  - intros [= <-]. reflexivity.
Qed.

Lemma add_then_read mint tx w w1 l :
  log_of w mint = Some l ->
  add_transaction mint tx w = (w1, inr tt) ->
  (existsb (has_signature (HeliusTransaction.signature tx)) l = true /\ w1 = w /\
   get_token_transactions mint w1 = (w1, inr l)) \/
  (existsb (has_signature (HeliusTransaction.signature tx)) l = false /\
   get_token_transactions mint w1 = (w1, inr (l ++ [tx]))).
Proof.
  intros Hlog Hadd. pose proof (add_transaction_spec mint tx w) as Hspec.
  rewrite Hlog in Hspec. rewrite Hspec in Hadd. clear Hspec.
  destruct (existsb (has_signature (HeliusTransaction.signature tx)) l) eqn:Hex.
  - left. injection Hadd as <-. repeat split.
    rewrite get_token_transactions_spec. unfold log_of in Hlog.
    destruct (mint_file_content w mint) as [[|[l'|d]]|]; try discriminate;
      try (injection Hlog as <-; discriminate Hex).
    now injection Hlog as ->.
  - right. destruct (writable (fs w) (mint_file (storage w) mint)); [|discriminate].
    injection Hadd as <-. split; [reflexivity|].
    rewrite get_token_transactions_spec.
    change (storage (with_file (mint_file (storage w) mint) (TxList (l ++ [tx])) w)) with (storage w).
    now rewrite mint_file_content_with_file.
Qed.

Lemma add_transaction_log mint tx w w1 :
  add_transaction mint tx w = (w1, inr tt) -> exists l, log_of w mint = Some l.
Proof.
  intros Hadd. pose proof (add_transaction_spec mint tx w) as Hspec.
  destruct (log_of w mint) as [l|]; [eauto|]. destruct Hspec as [e He]. congruence.
Qed.

Lemma run_serial rnd self a b w wa a1 a2 a3 a4 a5 w' b1 b2 b3 b4 b5 wb :
  step_task rnd self a w = (w, a1) ->
  step_task rnd self a1 w = (wa, a2) ->
  step_task rnd self a2 wa = (wa, a3) ->
  step_task rnd self a3 wa = (wa, a4) ->
  step_task rnd self a4 wa = (w', a5) ->
  step_task rnd self b w' = (w', b1) ->
  step_task rnd self b1 w' = (wb, b2) ->
  step_task rnd self b2 wb = (wb, b3) ->
  step_task rnd self b3 wb = (wb, b4) ->
  forall w'', step_task rnd self b4 wb = (w'', b5) ->
  run rnd self serial_schedule a b w = (w'', (a5, b5)).
Proof.
  intros H1 H2 H3 H4 H5 H6 H7 H8 H9 w'' H10. unfold serial_schedule. cbn [run].
  now rewrite H1, H2, H3, H4, H5, H6, H7, H8, H9, H10.
Qed.

(** C9, amended: when one invocation for a mint has returned before the
    next one starts, the two run as one after the other: the second
    evaluates a log that extends the one the first evaluated, so it sees
    every transaction appended before it, and its append of a transaction
    with the first one's signature changes nothing. *)
Theorem serial_invocations_are_ordered (rnd : Q -> Q) (self : ScamDetector.t)
    (mint : string) (txA txB : HeliusTransaction.t) (w w1 w2 : World)
    (rA rB : ScamDetectionResult.t) :
  analyze_mint rnd self txA mint [] w = (w1, inr [rA]) ->
  analyze_mint rnd self txB mint [] w1 = (w2, inr [rB]) ->
  run rnd self serial_schedule (start mint txA) (start mint txB) w
    = (w2, (finished mint txA rA, finished mint txB rB)) /\
  exists logA logB,
    _analyze_token rnd self mint logA txA = inr rA /\
    _analyze_token rnd self mint logB txB = inr rB /\
    existsb (has_signature (HeliusTransaction.signature txA)) logA = true /\
    existsb (has_signature (HeliusTransaction.signature txB)) logB = true /\
    (exists more, logB = logA ++ more) /\
    (HeliusTransaction.signature txB = HeliusTransaction.signature txA ->
       logB = logA /\ add_transaction mint txB w1 = (w1, inr tt)).
Proof.
  intros HA HB. split.
  - destruct (run_alone _ _ _ _ _ _ _ HA) as (a1 & a2 & a3 & a4 & wa & A1 & A2 & A3 & A4 & A5).
    destruct (run_alone _ _ _ _ _ _ _ HB) as (b1 & b2 & b3 & b4 & wb & B1 & B2 & B3 & B4 & B5).
    eapply run_serial; eauto.
  - apply analyze_mint_inv in HA as (wa & logA & rA' & HaddA & HgetA & HrA & HsaveA & EA).
    apply analyze_mint_inv in HB as (wb & logB & rB' & HaddB & HgetB & HrB & HsaveB & EB).
    injection EA as EA. injection EB as EB. subst rA' rB'.
    exists logA, logB. split; [assumption|]. split; [assumption|].
    destruct (log_after_append mint txA w wa HaddA) as (lA & HlogA & HgetA' & HexA).
    rewrite HgetA in HgetA'. injection HgetA' as <-.
    destruct (add_transaction_log mint txB w1 wb HaddB) as [l1 Hl1].
    assert (El : l1 = logA).
    { pose proof (save_result_log rA wa w1 mint l1 HsaveA Hl1) as Hc.
      unfold log_of in Hl1, HlogA. rewrite Hc in Hl1. congruence. }
    subst l1.
    destruct (add_then_read mint txB w1 wb logA Hl1 HaddB) as [(Hex & -> & Hget)|(Hex & Hget)];
      rewrite HgetB in Hget; injection Hget as ->.
    + split; [exact HexA|]. split; [exact Hex|]. split.
      * exists []. now rewrite app_nil_r.
      * intros _. split; [reflexivity|exact HaddB].
    + split; [exact HexA|]. split; [now apply existsb_has_signature_app|]. split.
      * now exists [txB].
      * intros E. rewrite E, HexA in Hex. discriminate.
Qed.

(** * The properties at sample inputs *)

(** ** Bundle-pattern detection *)

Lemma two_bundles_share_slot : shares_slot two_bundles.
Proof.
  exists 0%nat, 1%nat, (sample_tx "a" 1 0 [] []), (sample_tx "b" 1 0 [] []).
  repeat split. discriminate.
Qed.

(** C2 as stated fails: the slots 1, 1, 2, 2, 2 share slots, the largest
    group has three transactions, and the evidence is 2, the size of the
    group of slot 1. *)
Lemma bundle_evidence_not_largest :
  shares_slot two_bundles /\
  largest_group two_bundles = 3 /\
  _check_bundle_pattern two_bundles = (true, Some 2).
Proof.
  split; [exact two_bundles_share_slot|]. split; reflexivity.
Qed.

Lemma check_bundle_pattern_first_group_witness :
  _check_bundle_pattern [sample_tx "a" 1 0 [] []] = (false, None) /\
  exists pre tx post,
    two_bundles = pre ++ tx :: post /\
    (forall t, In t pre -> slot_count (HeliusTransaction.slot t) two_bundles < 2) /\
    2 <= slot_count (HeliusTransaction.slot tx) two_bundles <= largest_group two_bundles /\
    _check_bundle_pattern two_bundles =
      (true, Some (slot_count (HeliusTransaction.slot tx) two_bundles)).
Proof.
  split.
  - apply (proj1 (check_bundle_pattern_first_group [sample_tx "a" 1 0 [] []])). cbn. lia.
  - apply (proj1 (proj2 (check_bundle_pattern_first_group two_bundles))).
    exact two_bundles_share_slot.
Defined.

(** ** The per-token transaction log *)

Lemma fresh_log_unique can_write mint : log_unique (fresh_world can_write) mint.
Proof.
  intros l H. unfold log_of, mint_file_content in H. cbn in H.
  rewrite lookup_empty in H. injection H as <-. constructor.
Qed.

Lemma add_transaction_idempotent_witness :
  add_transaction "Mpump" txA
    (with_file "data/transactions/Mpump.json" (TxList [txA]) w0)
  = (with_file "data/transactions/Mpump.json" (TxList [txA]) w0, inr tt) /\
  exists l,
    get_token_transactions "Mpump"
      (with_file "data/transactions/Mpump.json" (TxList [txA]) w0)
    = (with_file "data/transactions/Mpump.json" (TxList [txA]) w0, inr l) /\
    (add_transaction "Mpump" txA ;; get_token_transactions "Mpump")%io
      (with_file "data/transactions/Mpump.json" (TxList [txA]) w0)
    = (with_file "data/transactions/Mpump.json" (TxList [txA]) w0, inr l) /\
    signature_count (HeliusTransaction.signature txA) l = 1%nat /\
    log_unique (with_file "data/transactions/Mpump.json" (TxList [txA]) w0) "Mpump".
Proof.
  apply (add_transaction_idempotent w0 _ "Mpump" txA txA).
  - apply fresh_log_unique.
  - reflexivity.
  - vm_compute. reflexivity.
Defined.

(** ** Mint extraction *)

(** C6 as stated fails: the empty string is a mint field of the
    transaction, and the extraction leaves it out. *)
Lemma extract_mints_drops_empty :
  In "" (mentioned_mints tx_with_empty_mint) /\
  _extract_mints tx_with_empty_mint = ["Mpump"] /\
  In "" (mentioned_mints (sample_tx "a" 100 7 [] [""])) /\
  _extract_mints (sample_tx "a" 100 7 [] [""]) = [].
Proof.
  split; [right; now left|]. split; [vm_compute; reflexivity|].
  split; [now left|]. vm_compute. reflexivity.
Qed.

Lemma extract_mints_distinct_nonempty_witness :
  analyze_transaction exact sample_detector (sample_tx "a" 100 7 [] [""]) w0
  = (w0, inr []).
Proof.
  apply (extract_mints_distinct_nonempty (sample_tx "a" 100 7 [] [""])).
  vm_compute. reflexivity.
Defined.

Lemma extract_mints_skips_empty_witness :
  _extract_mints (sample_tx "b" 100 7 [] [""; ""]) = [] /\
  forall rnd self w,
    analyze_transaction rnd self (sample_tx "b" 100 7 [] [""; ""]) w = (w, inr []).
Proof.
  apply (extract_mints_skips_empty (sample_tx "b" 100 7 [] [""; ""])).
  intros m [<-|[<-|[]]]; reflexivity.
Defined.

(** ** Persisting a result *)



(** ** The bookkeeping of an evaluation *)


(** ** Two invocations for one mint *)

Lemma alternating_complete : complete alternating_schedule.
Proof. split; reflexivity. Qed.

(** C9 as stated fails: when the steps of two invocations for one mint
    alternate, both appends read the log before either writes it: both see
    the signature as not present, also when the two transactions are the
    same, and the write of the second replaces that of the first, so the
    log ends without the first transaction and the first evaluation does
    not see the transaction it appended; neither serial order ends so. *)
Lemma appends_not_serialized :
  complete alternating_schedule /\
  (let '(_, (a, b)) :=
     run exact sample_detector [false; true] (start "Mpump" txA) (start "Mpump" txA) w0 in
   (task_pc a, task_pc b)) = (PcAddWrite (TxList []), PcAddWrite (TxList [])) /\
  log_of (fst (run exact sample_detector alternating_schedule
                 (start "Mpump" txA) (start "Mpump" txB) w0)) "Mpump" = Some [txB] /\
  log_of (fst (run exact sample_detector serial_schedule
                 (start "Mpump" txA) (start "Mpump" txB) w0)) "Mpump" = Some [txA; txB] /\
  log_of (fst (run exact sample_detector reverse_serial_schedule
                 (start "Mpump" txA) (start "Mpump" txB) w0)) "Mpump" = Some [txB; txA] /\
  ~ serialized exact sample_detector "Mpump" txA txB w0.
Proof.
  split; [exact alternating_complete|].
  split; [vm_compute; reflexivity|].
  split; [vm_compute; reflexivity|].
  split; [vm_compute; reflexivity|].
  split; [vm_compute; reflexivity|].
  intros H. destruct (H alternating_schedule alternating_complete) as [E|E];
    apply (f_equal (fun x => log_of (fst x) "Mpump")) in E;
    vm_compute in E; discriminate E.
Qed.

Lemma serial_invocations_are_ordered_witness :
  run exact sample_detector serial_schedule (start "Mpump" txA) (start "Mpump" txB) w0
  = (fst after_txB,
     (finished "Mpump" txA (returned after_txA),
      finished "Mpump" txB (returned after_txB))).
Proof.
  apply (serial_invocations_are_ordered exact sample_detector "Mpump" txA txB w0
           (fst after_txA) (fst after_txB) (returned after_txA) (returned after_txB)).
  - vm_compute. reflexivity.
  - vm_compute. reflexivity.
Defined.

(** ** Mint-suffix validation *)

Lemma substring_all s : substring 0 (String.length s) s = s.
Proof. induction s as [|c s IH]; cbn; [reflexivity|]. now rewrite IH. Qed.

Lemma length_append s t :
  String.length (s +:+ t) = (String.length s + String.length t)%nat.
Proof. induction s as [|c s IH]; cbn; [reflexivity|]. now rewrite <- IH. Qed.

Lemma substring_append_skip pre p :
  substring (String.length pre) (String.length p) (pre +:+ p) = p.
Proof.
  induction pre as [|c pre IH]; cbn.
  - apply substring_all.
  - exact IH.
Qed.

Lemma substring_split m s :
  (m <= String.length s)%nat ->
  s = substring 0 m s +:+ substring m (String.length s - m) s.
Proof.
  revert m. induction s as [|c s IH]; intros m Hm; cbn in *.
  - destruct m; [reflexivity|lia].
  - destruct m as [|m]; cbn.
    + now rewrite substring_all.
    + rewrite append_cons. f_equal. apply IH. lia.
Qed.

Lemma endswith_spec s p :
  endswith s p = true <-> exists pre, s = pre +:+ p.
Proof.
  unfold endswith. rewrite andb_true_iff, Nat.leb_le, String.eqb_eq. split.
  - intros [Hle E]. exists (substring 0 (String.length s - String.length p) s).
    pose proof (substring_split (String.length s - String.length p) s) as H.
    replace (String.length s - (String.length s - String.length p))%nat
      with (String.length p) in H by lia.
    rewrite E in H. apply H. lia.
  - intros [pre ->]. rewrite length_append. split; [lia|].
    replace (String.length pre + String.length p - String.length p)%nat with (String.length pre) by lia.
    apply substring_append_skip.
Qed.

(** X1: the mint-suffix check passes a mint exactly when the mint is some
    string followed by "pump". *)
Theorem check_mint_suffix_spec (mint : string) :
  _check_mint_suffix mint = false <-> exists pre, mint = pre +:+ "pump".
Proof.
  unfold _check_mint_suffix, PUMP_SUFFIX. rewrite negb_false_iff. apply endswith_spec.
Qed.

(** ** The flags as the log grows *)

Lemma has_bundle_iff txs :
  fst (_check_bundle_pattern txs) = true <-> shares_slot txs.
Proof.
  rewrite check_bundle_pattern_first, shares_slot_count. unfold first_bundled.
  destruct (List.find _ txs) as [tx|] eqn:Hf; cbn.
  - apply List.find_some in Hf as [Hin Hc]. apply Z.leb_le in Hc. split; eauto.
  - split; [discriminate|]. intros (tx & Hin & Hc).
    eapply List.find_none in Hf; [|exact Hin]. apply Z.leb_gt in Hf. lia.
Qed.

Lemma shares_slot_app l more : shares_slot l -> shares_slot (l ++ more).
Proof.
  intros (i & j & t1 & t2 & Hij & Hi & Hj & Hs).
  exists i, j, t1, t2. repeat split; auto; now apply lookup_app_l_Some.
Qed.

(** X2: a bundle found in a log is found in every log that extends it. *)
Theorem has_bundle_persists (l more : list HeliusTransaction.t) :
  fst (_check_bundle_pattern l) = true ->
  fst (_check_bundle_pattern (l ++ more)) = true.
Proof.
  rewrite !has_bundle_iff. apply shares_slot_app.
Qed.

Lemma native_amounts_app l more :
  native_amounts (l ++ more) = native_amounts l ++ native_amounts more.
Proof. unfold native_amounts. apply flat_map_app. Qed.

Lemma float_gt_le_trans x y z :
  float_gt x z = true -> (x <= y)%Q -> float_gt y z = true.
Proof.
  rewrite !float_gt_spec. intros H1 H2. eapply Qlt_le_trans; eauto.
Qed.


(** ** Reading and appending a log *)

(** X4: reading the log of a mint never raises and changes nothing; it
    gives the transactions of a log file, and the empty list for a missing
    file, for a file that does not load and for a file that holds no log. *)
Theorem get_token_transactions_never_fails (mint : string) (w : World) :
  exists l,
    get_token_transactions mint w = (w, inr l) /\
    (forall l', mint_file_content w mint = Some (Parsable (TxList l')) -> l = l') /\
    (mint_file_content w mint = None -> l = []) /\
    (mint_file_content w mint = Some Unparsable -> l = []) /\
    (forall d, mint_file_content w mint = Some (Parsable (ResultDict d)) -> l = []).
Proof.
  rewrite get_token_transactions_spec. eexists. split; [reflexivity|].
  destruct (mint_file_content w mint) as [[|[l|d]]|]; repeat split; congruence.
Qed.

Lemma add_transaction_cases mint tx w w1 o :
  add_transaction mint tx w = (w1, o) ->
  (exists l, log_of w mint = Some l /\
     existsb (has_signature (HeliusTransaction.signature tx)) l = true /\
     w1 = w /\ o = inr tt) \/
  (exists l, log_of w mint = Some l /\
     existsb (has_signature (HeliusTransaction.signature tx)) l = false /\
     writable (fs w) (mint_file (storage w) mint) = true /\
     w1 = with_file (mint_file (storage w) mint) (TxList (l ++ [tx])) w /\ o = inr tt) \/
  (exists l, log_of w mint = Some l /\
     existsb (has_signature (HeliusTransaction.signature tx)) l = false /\
     writable (fs w) (mint_file (storage w) mint) = false /\
     w1 = w /\ o = inl OSError) \/
  (log_of w mint = None /\ w1 = w /\ o = inl AttributeError).
Proof.
  intros H. pose proof (add_transaction_spec mint tx w) as Hspec.
  destruct (log_of w mint) as [l|] eqn:Hlog.
  - rewrite Hspec in H. clear Hspec.
    destruct (existsb _ l) eqn:Hex.
    + injection H as <- <-. left. eauto.
    + destruct (writable _ _) eqn:Hw; injection H as <- <-.
      * right. left. exists l. auto.
      * right. right. left. exists l. auto.
  - right. right. right. split; [reflexivity|].
    unfold add_transaction, io_bind in H. rewrite add_transaction_read_spec in H.
    unfold log_of in Hlog.
    destruct (mint_file_content w mint) as [[|[l|d]]|]; try discriminate.
    unfold add_transaction_write, io_bind, get_self, io_lift, any_same_signature,
      py_append in H. cbn in H.
    destruct (bool_decide (d = ∅)); cbn in H; injection H as <- <-; auto.
Qed.


(** X6: an append that returns keeps the entries of the log and their
    order: the log read back is the log before, or the log before followed
    by the new transaction; a file that did not load counts as an empty
    log and is replaced. *)
Theorem add_transaction_extends_log (mint : string)
    (tx : HeliusTransaction.t) (w w1 : World) :
  add_transaction mint tx w = (w1, inr tt) ->
  exists l,
    log_of w mint = Some l /\
    (mint_file_content w mint = Some Unparsable -> l = []) /\
    (get_token_transactions mint w1 = (w1, inr l) /\
       existsb (has_signature (HeliusTransaction.signature tx)) l = true /\ w1 = w
     \/
     get_token_transactions mint w1 = (w1, inr (l ++ [tx])) /\
       existsb (has_signature (HeliusTransaction.signature tx)) l = false /\
       mint_file_content w1 mint = Some (Parsable (TxList (l ++ [tx])))).
Proof.
  intros H. destruct (add_transaction_log mint tx w w1 H) as [l Hl].
  exists l. split; [exact Hl|]. split.
  - intros Hc. unfold log_of in Hl. rewrite Hc in Hl. congruence.
  - destruct (add_then_read mint tx w w1 l Hl H) as [(Hex & -> & Hget)|(Hex & Hget)].
    + left. auto.
    + right. split; [exact Hget|]. split; [exact Hex|].
      apply add_transaction_cases in H
        as [(l' & Hl' & Hex' & _)|[(l' & Hl' & _ & _ & -> & _)|[(l' & _ & _ & _ & _ & [=])|(_ & _ & [=])]]].
      * congruence.
      * rewrite Hl in Hl'. injection Hl' as <-. apply mint_file_content_with_file.
Qed.


(** ** The result store *)

Lemma get_result_spec k w :
  get_result k w = (w, inr (Storage._results_cache (storage w) !! k)).
Proof. reflexivity. Qed.

Lemma length_map_to_list_insert (c : gmap string ScamDetectionResult.t) k r :
  length (map_to_list (<[k := r]> c)) =
    if bool_decide (is_Some (c !! k)) then length (map_to_list c)
    else S (length (map_to_list c)).
Proof.
  rewrite !length_map_to_list, is_Some_decide.
  destruct (c !! k) as [r0|] eqn:E.
  - apply map_size_insert_Some. eauto.
  - now apply map_size_insert_None.
Qed.

(** X8: saving a result never raises, whether the results file can be
    written or not; afterwards the result is what [get_result] gives for
    its mint and is among [get_all_results], the results of the other mints
    are as before, and the number of results has grown by one exactly when
    the mint had none. *)
Theorem save_result_then_get (result : ScamDetectionResult.t) (w : World) :
  exists w' all all',
    save_result result w = (w', inr tt) /\
    get_result (ScamDetectionResult.mint result) w' = (w', inr (Some result)) /\
    (forall k, k <> ScamDetectionResult.mint result ->
       snd (get_result k w') = snd (get_result k w)) /\
    get_all_results w = (w, inr all) /\
    get_all_results w' = (w', inr all') /\
    In result all' /\
    length all' =
      (if bool_decide (is_Some (Storage._results_cache (storage w)
                                  !! ScamDetectionResult.mint result))
       then length all else S (length all)).
Proof.
  set (c := Storage._results_cache (storage w)).
  set (c' := <[ScamDetectionResult.mint result := result]> c).
  assert (Hc : forall w', save_result result w = (w', inr tt) ->
            Storage._results_cache (storage w') = c').
  { rewrite save_result_spec. destruct (writable _ _); intros w' [= <-]; reflexivity. }
  destruct (save_result_returns result w) as (w' & Hsave & Hget).
  specialize (Hc w' Hsave).
  exists w', (map snd (map_to_list c)), (map snd (map_to_list c')).
  split; [exact Hsave|]. rewrite !get_result_spec. split; [now rewrite Hget|].
  split; [|split; [reflexivity|split; [|split]]].
  - intros k Hk. cbn. rewrite Hc. unfold c'. now rewrite lookup_insert_ne.
  - unfold get_all_results, io_bind, get_self, io_ret. now rewrite Hc.
  - apply in_map_iff. exists (ScamDetectionResult.mint result, result). split; [reflexivity|].
    apply list_elem_of_In, elem_of_map_to_list. apply lookup_insert_eq.
  - rewrite !length_map. apply length_map_to_list_insert.
Qed.

(** ** Restarting *)

Lemma initialize_spec makedirs w :
  initialize makedirs w =
    match makedirs (Storage.transactions_dir (storage w)) with
    | inl e => (w, inl e)
    | inr _ =>
        match makedirs (Storage.data_dir (storage w)) with
        | inl e => (w, inl e)
        | inr _ =>
            match files (fs w) !! Storage.results_file (storage w) with
            | Some (Parsable (ResultDict d)) =>
                ({| storage := Storage.set_results_cache d (storage w); fs := fs w |},
                 inr tt)
            | _ => (w, inr tt)
            end
        end
    end.
Proof.
  unfold initialize, io_bind, get_self, io_lift, path_exists, io_try_except, read_json,
    load_results, put_self, io_ret. cbn.
  destruct (makedirs (Storage.transactions_dir (storage w))) as [e|[]]; [reflexivity|].
  destruct (makedirs (Storage.data_dir (storage w))) as [e|[]]; [reflexivity|].
  rewrite is_Some_decide.
  destruct (files (fs w) !! Storage.results_file (storage w)) as [[|[l|d]]|] eqn:E;
    cbn; rewrite ?E; reflexivity.
Qed.

(** X9: a result saved while the results file could be written survives a
    restart: a new storage object for the same data directory, once
    initialized, holds the cache that the old one held after the save. *)
Theorem saved_results_survive_restart (makedirs : string -> res unit)
    (data_dir : string) (cache : gmap string ScamDetectionResult.t)
    (result : ScamDetectionResult.t) (w w' : World) :
  storage w = Storage.set_results_cache cache (Storage.__init__ data_dir) ->
  writable (fs w) (Storage.results_file (storage w)) = true ->
  makedirs (Storage.transactions_dir (storage w)) = inr tt ->
  makedirs (Storage.data_dir (storage w)) = inr tt ->
  save_result result w = (w', inr tt) ->
  initialize makedirs (restarted data_dir w') = (w', inr tt) /\
  Storage._results_cache (storage w')
    = <[ScamDetectionResult.mint result := result]> cache.
Proof.
  intros Hs Hw Hm1 Hm2. rewrite save_result_spec, Hw. intros [= <-].
  rewrite initialize_spec. unfold restarted. cbn [storage fs files].
  rewrite Hs in *. cbn in *. rewrite Hm1, Hm2.
  rewrite lookup_insert_eq. split; reflexivity.
Qed.

(** X10: initialization with the directories in place never raises: a
    results file that is missing, that does not load, or that holds a list
    leaves the cache as it is; and when a directory cannot be made,
    initialization raises and changes nothing. *)
Theorem initialize_tolerates_bad_file (makedirs : string -> res unit) (w : World) :
  (makedirs (Storage.transactions_dir (storage w)) = inr tt ->
   makedirs (Storage.data_dir (storage w)) = inr tt ->
   (exists w', initialize makedirs w = (w', inr tt) /\ fs w' = fs w) /\
   ((forall d, files (fs w) !! Storage.results_file (storage w)
               <> Some (Parsable (ResultDict d))) ->
    initialize makedirs w = (w, inr tt))) /\
  (forall e,
     makedirs (Storage.transactions_dir (storage w)) = inl e \/
     (makedirs (Storage.transactions_dir (storage w)) = inr tt /\
      makedirs (Storage.data_dir (storage w)) = inl e) ->
     initialize makedirs w = (w, inl e)).
Proof.
  rewrite initialize_spec. split.
  - intros -> ->. split.
    + destruct (files (fs w) !! _) as [[|[l|d]]|]; eexists; split; reflexivity.
    + intros H. destruct (files (fs w) !! _) as [[|[l|d]]|]; try reflexivity.
      now destruct (H d).
  - intros e [->|[-> ->]]; reflexivity.
Qed.

(** ** The whole pipeline *)

Lemma for_each_invariant {A S} (P : World -> Prop) (body : A -> S -> IO S) (l : list A) :
  (forall x acc w w' o, In x l -> P w -> body x acc w = (w', o) -> P w') ->
  forall acc w w' o, P w -> for_each l acc body w = (w', o) -> P w'.
Proof.
  induction l as [|x l IH]; intros Hbody acc w w' o HP H; cbn in H.
  - unfold io_ret in H. now injection H as <- _.
  - unfold io_bind in H. destruct (body x acc w) as [w1 [e|acc']] eqn:Hb.
    + injection H as <- _. eapply Hbody; eauto. now left.
    + eapply IH; [|eapply Hbody; eauto; now left|exact H].
      intros y acc0 v v' o0 Hy. apply Hbody. now right.
Qed.

Lemma analyze_token_mint rnd self mint transactions current_tx r :
  _analyze_token rnd self mint transactions current_tx = inr r ->
  result_ok mint r /\
  ScamDetectionResult.total_transactions r = Z.of_nat (length transactions).
Proof.
  unfold _analyze_token, result_ok.
  destruct (_check_bundle_pattern transactions) as [has_bundle bundle_gap].
  destruct (_check_large_purchase rnd transactions) as [has_large max_sol].
  destruct (check_metadata_url_total self mint) as [invalid_metadata ->].
  cbn [res_bind].
  destruct has_bundle, has_large, invalid_metadata, (_check_mint_suffix mint);
    intros [= <-]; repeat split.
Qed.

(** What one pass of the loop body does to the world: the append, and the
    save of the result when the append returned. *)
Lemma analyze_mint_world rnd self tx mint results w w' o :
  analyze_mint rnd self tx mint results w = (w', o) ->
  exists w1 o1,
    add_transaction mint tx w = (w1, o1) /\
    ((w' = w1 /\ exists e, o1 = inl e /\ o = inl e) \/
     (o1 = inr tt /\ exists log r,
        get_token_transactions mint w1 = (w1, inr log) /\
        _analyze_token rnd self mint log tx = inr r /\
        save_result r w1 = (w', inr tt) /\ o = inr (results ++ [r]))).
Proof.
  unfold analyze_mint, io_bind, io_lift, io_ret. intros H.
  destruct (add_transaction mint tx w) as [w1 [e|[]]] eqn:Hadd.
  - injection H as <- <-. exists w1, (inl e). split; [reflexivity|]. left. eauto.
  - exists w1, (inr tt). split; [reflexivity|]. right. split; [reflexivity|].
    pose proof (get_token_transactions_spec mint w1) as Hget. rewrite Hget in H.
    destruct (analyze_token_returns rnd self mint
                match mint_file_content w1 mint with
                | Some (Parsable (TxList l)) => l
                | _ => []
                end tx) as (r & Hr & _).
    rewrite Hr in H. destruct (save_result_returns r w1) as (w2 & Hsave & _).
    rewrite Hsave in H. injection H as <- <-. eexists _, r. eauto.
Qed.

Lemma add_transaction_files_unique mint tx w w1 o :
  files_unique w -> add_transaction mint tx w = (w1, o) -> files_unique w1.
Proof.
  intros Hu H. apply add_transaction_cases in H
    as [(l & _ & _ & -> & _)|[(l & Hl & Hex & _ & -> & _)|[(l & _ & _ & _ & -> & _)|(_ & -> & _)]]];
    try exact Hu.
  intros p l' Hp. cbn in Hp.
  destruct (decide (mint_file (storage w) mint = p)) as [<-|Hne].
  - rewrite lookup_insert_eq in Hp. injection Hp as <-.
    apply unique_after_append; [|exact Hex].
    unfold log_of, mint_file_content in Hl.
    destruct (files (fs w) !! mint_file (storage w) mint) as [[|[l0|d]]|] eqn:E;
      try discriminate; injection Hl as <-; try constructor.
    eapply Hu; eauto.
  - rewrite lookup_insert_ne in Hp by exact Hne. eapply Hu; eauto.
Qed.

Lemma save_result_files_unique r w w' o :
  files_unique w -> save_result r w = (w', o) -> files_unique w'.
Proof.
  intros Hu. rewrite save_result_spec. destruct (writable _ _); intros [= <- _]; [|exact Hu].
  intros p l Hp. cbn in Hp.
  destruct (decide (Storage.results_file (storage w) = p)) as [<-|Hne].
  - rewrite lookup_insert_eq in Hp. discriminate.
  - rewrite lookup_insert_ne in Hp by exact Hne. eapply Hu; eauto.
Qed.

Lemma add_transaction_storage mint tx w w1 o :
  add_transaction mint tx w = (w1, o) -> storage w1 = storage w.
Proof.
  intros H. apply add_transaction_cases in H
    as [(l & _ & _ & -> & _)|[(l & _ & _ & _ & -> & _)|[(l & _ & _ & _ & -> & _)|(_ & -> & _)]]];
    reflexivity.
Qed.

Lemma save_result_cache_ok r w w' o :
  cache_ok w -> result_ok (ScamDetectionResult.mint r) r ->
  save_result r w = (w', o) -> cache_ok w'.
Proof.
  intros Hc Hr. rewrite save_result_spec.
  assert (Hins : forall k r0,
            <[ScamDetectionResult.mint r := r]> (Storage._results_cache (storage w)) !! k = Some r0 ->
            result_ok k r0).
  { intros k r0 Hk. destruct (decide (ScamDetectionResult.mint r = k)) as [<-|Hne].
    - rewrite lookup_insert_eq in Hk. now injection Hk as <-.
    - rewrite lookup_insert_ne in Hk by exact Hne. now apply Hc. }
  destruct (writable _ _); intros [= <- _]; exact Hins.
Qed.

(** X11: the pipeline keeps the store well formed, whether it returns or
    raises: if no log on disk holds a signature twice and every cached
    result is one for the mint it is cached under, with [is_scam] the
    disjunction of its flags and its reasons those of its flags, the same
    holds afterwards. *)
Theorem analyze_transaction_keeps_store (rnd : Q -> Q) (self : ScamDetector.t)
    (tx : HeliusTransaction.t) (w w' : World) (o : res (list ScamDetectionResult.t)) :
  files_unique w -> cache_ok w ->
  analyze_transaction rnd self tx w = (w', o) ->
  files_unique w' /\ cache_ok w'.
Proof.
  intros Hu Hc H.
  assert (Hloop : forall l acc, for_each l acc (analyze_mint rnd self tx) w = (w', o) ->
            files_unique w' /\ cache_ok w').
  { intros l acc Hl.
    apply (for_each_invariant (fun w => files_unique w /\ cache_ok w)
             (analyze_mint rnd self tx) l) with (acc := acc) (w := w) (o := o);
      [|split; assumption|exact Hl].
    clear. intros mint acc w w' o _ [Hu Hc] Hb.
    apply analyze_mint_world in Hb as (w1 & o1 & Hadd & [(-> & _)|(-> & log & r & _ & Hr & Hsave & _)]).
    - split; [eapply add_transaction_files_unique; eauto|].
      intros k r. rewrite (add_transaction_storage _ _ _ _ _ Hadd). apply Hc.
    - pose proof (add_transaction_files_unique _ _ _ _ _ Hu Hadd) as Hu1.
      split; [eapply save_result_files_unique; eauto|].
      apply analyze_token_mint in Hr as [Hok _].
      eapply save_result_cache_ok; [| |exact Hsave].
      + intros k r0. rewrite (add_transaction_storage _ _ _ _ _ Hadd). apply Hc.
      + destruct Hok as [Hm ?]. rewrite Hm. split; auto. }
  unfold analyze_transaction in H. destruct (_extract_mints tx) as [|m l] eqn:E.
  - unfold io_ret in H. injection H as <- _. split; assumption.
  - eapply Hloop. exact H.
Qed.

Lemma same_storage_paths_refl w : same_storage_paths w w.
Proof.
  exists (Storage._results_cache (storage w)). now destruct (storage w).
Qed.

Lemma save_result_frame r w w' o :
  save_result r w = (w', o) ->
  same_storage_paths w w' /\
  writable (fs w') = writable (fs w) /\
  (forall p, p <> Storage.results_file (storage w) ->
     files (fs w') !! p = files (fs w) !! p) /\
  (forall k, k <> ScamDetectionResult.mint r ->
     Storage._results_cache (storage w') !! k = Storage._results_cache (storage w) !! k).
Proof.
  rewrite save_result_spec. destruct (writable _ _); intros [= <- _]; cbn;
    (split; [eexists; reflexivity|]); (split; [reflexivity|]); split;
    intros x Hx; rewrite ?lookup_insert_ne by congruence; reflexivity.
Qed.

Lemma for_each_framed rnd self tx l acc w w' o :
  for_each l acc (analyze_mint rnd self tx) w = (w', o) -> framed l w w'.
Proof.
  apply (for_each_invariant (framed l w) (analyze_mint rnd self tx) l).
  - intros mint acc0 v v' o0 Hin (Hs & Hw & Hf & Hc) Hb.
    destruct Hs as [c Hs].
    assert (Hmf : mint_file (storage v) mint = mint_file (storage w) mint)
      by (unfold mint_file; now rewrite Hs).
    assert (Hrf : Storage.results_file (storage v) = Storage.results_file (storage w))
      by now rewrite Hs.
    assert (Hadd_frame : forall v1 o1, add_transaction mint tx v = (v1, o1) ->
              framed l w v1).
    { intros v1 o1 Hadd.
      pose proof (add_transaction_storage _ _ _ _ _ Hadd) as Hst.
      apply add_transaction_cases in Hadd
        as [(l0 & _ & _ & -> & _)|[(l0 & _ & _ & _ & -> & _)|[(l0 & _ & _ & _ & -> & _)|(_ & -> & _)]]];
        try (split; [now exists c|]; split; [assumption|]; split; assumption).
      split; [now exists c|]. split; [assumption|]. split; [|assumption].
      intros p Hp. cbn. rewrite lookup_insert_ne; [now apply Hf|].
      rewrite Hmf. intros <-. apply Hp. right. now apply in_map. }
    apply analyze_mint_world in Hb
      as (v1 & o1 & Hadd & [(-> & _)|(-> & log & r & _ & Hr & Hsave & _)]).
    + eapply Hadd_frame; eauto.
    + destruct (Hadd_frame _ _ Hadd) as ([c1 Hs1] & Hw1 & Hf1 & Hc1).
      apply analyze_token_mint in Hr as [[Hm _] _].
      destruct (save_result_frame _ _ _ _ Hsave) as ([c2 Hs2] & Hw2 & Hf2 & Hc2).
      split; [|split; [|split]].
      * exists c2. rewrite Hs2, Hs1. reflexivity.
      * congruence.
      * intros p Hp. rewrite Hf2; [now apply Hf1|].
        rewrite Hs1. cbn. intros ->. apply Hp. now left.
      * intros k Hk. rewrite Hc2; [now apply Hc1|]. rewrite Hm. intros ->. contradiction.
  - split; [apply same_storage_paths_refl|]. repeat split.
Qed.


Lemma for_each_results rnd self tx l :
  List.NoDup l ->
  forall acc w w' rs,
    for_each l acc (analyze_mint rnd self tx) w = (w', inr rs) ->
    exists new,
      rs = acc ++ new /\
      map ScamDetectionResult.mint new = l /\
      (forall r, In r new ->
         Storage._results_cache (storage w') !! ScamDetectionResult.mint r = Some r /\
         (1 <= ScamDetectionResult.total_transactions r)%Z /\
         exists log,
           existsb (has_signature (HeliusTransaction.signature tx)) log = true /\
           _analyze_token rnd self (ScamDetectionResult.mint r) log tx = inr r).
Proof.
  induction 1 as [|mint l Hnotin Hnd IH]; intros acc w w' rs H; cbn in H.
  - injection H as <- <-. exists []. rewrite app_nil_r.
    split; [reflexivity|]. split; [reflexivity|]. intros r [].
  - unfold io_bind in H.
    destruct (analyze_mint rnd self tx mint acc w) as [w1 [e|acc1]] eqn:Hb; [discriminate|].
    pose proof (for_each_framed _ _ _ _ _ _ _ _ H) as (_ & _ & _ & Hcache).
    destruct (IH _ _ _ _ H) as (new & -> & Hmap & Hnew).
    apply analyze_mint_inv in Hb as (v1 & log & r & Hadd & Hget & Hr & Hsave & ->).
    exists (r :: new). rewrite <- app_assoc. split; [reflexivity|].
    pose proof (analyze_token_mint _ _ _ _ _ _ Hr) as [[Hm _] Htotal].
    split; [cbn; now rewrite Hm, Hmap|].
    intros r0 [<-|Hin]; [|now apply Hnew].
    split; [|split].
    + rewrite Hm. rewrite (Hcache mint Hnotin).
      destruct (save_result_returns r v1) as (w2 & Hsave' & Hlook).
      rewrite Hsave in Hsave'. injection Hsave' as <-. now rewrite <- Hm.
    + destruct (log_after_append _ _ _ _ Hadd) as (l0 & _ & Hget' & Hex).
      rewrite Hget in Hget'. injection Hget' as <-.
      rewrite Htotal. destruct log; [discriminate|]. cbn. lia.
    + destruct (log_after_append _ _ _ _ Hadd) as (l0 & _ & Hget' & Hex).
      rewrite Hget in Hget'. injection Hget' as <-.
      exists log. rewrite Hm. auto.
Qed.

(** X13: when the pipeline returns, it returns one result per extracted
    mint, in the order of the extraction; each is cached under its mint,
    and each is the evaluation of a log that holds the transaction, so it
    counts at least one transaction. *)
Theorem analyze_transaction_results (rnd : Q -> Q) (self : ScamDetector.t)
    (tx : HeliusTransaction.t) (w w' : World) (rs : list ScamDetectionResult.t) :
  analyze_transaction rnd self tx w = (w', inr rs) ->
  map ScamDetectionResult.mint rs = _extract_mints tx /\
  (forall r, In r rs ->
     Storage._results_cache (storage w') !! ScamDetectionResult.mint r = Some r /\
     (1 <= ScamDetectionResult.total_transactions r)%Z /\
     exists log,
       existsb (has_signature (HeliusTransaction.signature tx)) log = true /\
       _analyze_token rnd self (ScamDetectionResult.mint r) log tx = inr r).
Proof.
  unfold analyze_transaction. destruct (_extract_mints tx) as [|m l] eqn:E.
  - intros [= <- <-]. split; [reflexivity|]. intros r [].
  - intros H.
    assert (Hnd : List.NoDup (m :: l)).
    { rewrite <- E. unfold _extract_mints. apply NoDup_ListNoDup. apply NoDup_elements. }
    destruct (for_each_results rnd self tx (m :: l) Hnd _ _ _ _ H) as (new & -> & Hmap & Hnew).
    split; [exact Hmap|exact Hnew].
Qed.


(** ** The webhook *)

Lemma webhook_step_counts rnd validate detector tx_data c w :
  exists w' c',
    webhook_step rnd validate detector tx_data c w = (w', inr c') /\
    (n_processed c' + n_filtered_out c' = n_processed c + n_filtered_out c + 1)%Z /\
    (n_processed c <= n_processed c')%Z /\
    (n_filtered_out c <= n_filtered_out c')%Z.
Proof.
  unfold webhook_step, io_bind, io_try_except.
  destruct (webhook_item rnd validate detector tx_data w) as [w1 [e|[|results]]].
  - cbn. destruct e; cbn; eexists _, _; (split; [reflexivity|]); cbn; lia.
  - cbn. eexists _, _. split; [reflexivity|]. cbn. lia.
  - cbn. eexists _, _. split; [reflexivity|]. cbn. lia.
Qed.

Lemma webhook_loop_counts rnd validate detector batch c w :
  exists w' c',
    for_each batch c (webhook_step rnd validate detector) w = (w', inr c') /\
    (n_processed c' + n_filtered_out c'
     = n_processed c + n_filtered_out c + Z.of_nat (length batch))%Z /\
    (n_processed c <= n_processed c')%Z /\
    (n_filtered_out c <= n_filtered_out c')%Z.
Proof.
  revert c w. induction batch as [|x batch IH]; intros c w.
  - exists w, c. cbn [for_each length]. split; [reflexivity|]. lia.
  - destruct (webhook_step_counts rnd validate detector x c w) as (w1 & c1 & H1 & E1 & P1 & F1).
    destruct (IH c1 w1) as (w' & c' & H' & E' & P' & F').
    exists w', c'. cbn [for_each]. unfold io_bind at 1. rewrite H1.
    split; [exact H'|]. cbn [length]. lia.
Qed.

(** X15: the webhook handler answers every decoded body with "success",
    and with counts that add up: every element of the batch is either
    processed or filtered out, whatever the elements are and whatever
    fails while one is handled; only a body that cannot be decoded gives a
    500. *)
Theorem webhook_handler_counts (rnd : Q -> Q)
    (validate : gmap string json -> res HeliusTransaction.t)
    (detector : ScamDetector.t) (w : World) :
  (forall body, exists w' r,
     webhook_handler rnd validate detector (inr body) w = (w', inr (Responded r)) /\
     status r = "success" /\
     total_received r = Z.of_nat (length (batch_of body)) /\
     (processed r + filtered_out r = total_received r)%Z /\
     (0 <= processed r)%Z /\ (0 <= filtered_out r)%Z) /\
  (forall e,
     webhook_handler rnd validate detector (inl e) w = (w, inr (Failed500 e))).
Proof.
  split; [|reflexivity]. intros body. unfold webhook_handler.
  fold (batch_of body).
  destruct (webhook_loop_counts rnd validate detector (batch_of body)
              {| n_processed := 0; n_filtered_out := 0; all_results := [] |} w)
    as (w' & c' & H & E & P & F).
  unfold io_bind. rewrite H. eexists _, _. split; [reflexivity|]. cbn in *.
  repeat split; lia.
Qed.

Lemma webhook_item_filtered rnd validate detector tx_data w :
  passes_filters tx_data = false ->
  webhook_item rnd validate detector tx_data w = (w, inr FilteredOut) \/
  exists e, webhook_item rnd validate detector tx_data w = (w, inl e).
Proof.
  unfold passes_filters, webhook_item, io_bind, io_lift, io_ret.
  destruct tx_data as [| | | | | |d]; cbn;
    try (intros _; right; eexists; reflexivity).
  destruct (py_in "NFT" (default (JStr "") (d !! "type"))) as [e|[|]]; cbn.
  - intros _. right. eauto.
  - intros _. now left.
  - intros ->. cbn. now left.
Qed.

(** X16: a batch in which no element gets past the filters (an element
    that is no dict, whose type holds "NFT" or cannot be searched, or
    whose source is not "PUMP_FUN") changes nothing: every element is
    counted as filtered out and no token is analyzed. *)
Theorem webhook_handler_filters (rnd : Q -> Q)
    (validate : gmap string json -> res HeliusTransaction.t)
    (detector : ScamDetector.t) (body : json) (w : World) :
  Forall (fun tx_data => passes_filters tx_data = false) (batch_of body) ->
  webhook_handler rnd validate detector (inr body) w
  = (w, inr (Responded
               {| status := "success";
                  total_received := Z.of_nat (length (batch_of body));
                  processed := 0;
                  filtered_out := Z.of_nat (length (batch_of body));
                  tokens_analyzed := 0 |})).
Proof.
  intros Hall. unfold webhook_handler. fold (batch_of body).
  assert (Hloop : forall c,
            for_each (batch_of body) c (webhook_step rnd validate detector) w
            = (w, inr {| n_processed := n_processed c;
                         n_filtered_out := n_filtered_out c + Z.of_nat (length (batch_of body));
                         all_results := all_results c |})).
  { induction Hall as [|x l Hx Hl IH]; intros c.
    - cbn. unfold io_ret. destruct c. cbn. do 3 f_equal. lia.
    - cbn [for_each]. unfold io_bind at 1.
      assert (Hstep : webhook_step rnd validate detector x c w
                = (w, inr {| n_processed := n_processed c;
                             n_filtered_out := n_filtered_out c + 1;
                             all_results := all_results c |})).
      { unfold webhook_step, io_bind, io_try_except.
        destruct (webhook_item_filtered rnd validate detector x w Hx) as [->|[e ->]].
        - reflexivity.
        - cbn. now destruct e. }
      rewrite Hstep, IH. cbn. do 3 f_equal. lia. }
  unfold io_bind. rewrite Hloop. reflexivity.
Qed.

Lemma webhook_item_accepted rnd validate detector d tx w :
  passes_filters (JDict d) = true ->
  py_slice (default (JStr "N/A") (d !! "signature")) = inr tt ->
  validate d = inr tx ->
  webhook_item rnd validate detector (JDict d) w =
    match analyze_transaction rnd detector tx w with
    | (w', inl e) => (w', inl e)
    | (w', inr results) => (w', inr (Processed results))
    end.
Proof.
  unfold passes_filters, webhook_item, io_bind, io_lift, io_ret. cbn.
  destruct (py_in "NFT" (default (JStr "") (d !! "type"))) as [e|[|]]; try discriminate.
  intros -> -> ->. cbn.
  destruct (analyze_transaction rnd detector tx w) as [w' [e|results]]; reflexivity.
Qed.

(** X17: a body that is one dict which gets past the filters, whose
    signature can be sliced and which validates is handed to the pipeline:
    when the pipeline returns, the element is counted as processed and its
    results as the tokens analyzed; when the pipeline raises, the element
    is counted as filtered out and the handler still answers "success",
    in the world the pipeline left. *)
Theorem webhook_handler_accepts (rnd : Q -> Q)
    (validate : gmap string json -> res HeliusTransaction.t)
    (detector : ScamDetector.t) (d : gmap string json)
    (tx : HeliusTransaction.t) (w w' : World)
    (o : res (list ScamDetectionResult.t)) :
  passes_filters (JDict d) = true ->
  py_slice (default (JStr "N/A") (d !! "signature")) = inr tt ->
  validate d = inr tx ->
  analyze_transaction rnd detector tx w = (w', o) ->
  webhook_handler rnd validate detector (inr (JDict d)) w
  = (w', inr (Responded
                match o with
                | inr results =>
                    {| status := "success"; total_received := 1; processed := 1;
                       filtered_out := 0;
                       tokens_analyzed := Z.of_nat (length results) |}
                | inl _ =>
                    {| status := "success"; total_received := 1; processed := 0;
                       filtered_out := 1; tokens_analyzed := 0 |}
                end)).
Proof.
  intros Hf Hs Hv Ha. unfold webhook_handler. cbn [for_each length].
  unfold io_bind, webhook_step, io_try_except, io_bind.
  rewrite (webhook_item_accepted rnd validate detector d tx w Hf Hs Hv), Ha.
  destruct o as [e|results]; cbn.
  - now destruct e.
  - reflexivity.
Qed.

(** ** The metadata of a token *)

Lemma get_token_metadata_dict c mint d :
  HeliusClient.api_key c <> "" ->
  HeliusClient.client c (metadata_url c mint) (HeliusClient.api_key c) = inr (JDict d) ->
  HeliusClient.get_token_metadata c mint =
    match
      (let data := JDict d in
       name <- dict_get data "name" ;;
       symbol <- dict_get data "symbol" ;;
       uri <- (u <- dict_get data "uri" ;;
               py_or u (md <- dict_get_default data "metadata" (JDict ∅) ;;
                        dict_get md "uri")) ;;
       creator <- (c <- dict_get data "creator" ;;
                   py_or c (dict_get data "updateAuthority")) ;;
       name <- validate_optional_str name ;;
       symbol <- validate_optional_str symbol ;;
       uri <- validate_optional_str uri ;;
       creator <- validate_optional_str creator ;;
       inr (Some {| TokenMetadata.mint := mint;
                    TokenMetadata.name := name;
                    TokenMetadata.symbol := symbol;
                    TokenMetadata.uri := uri;
                    TokenMetadata.creator := creator |}))%res
    with
    | inl _ => inr None
    | inr o => inr o
    end.
Proof.
  intros Hk Hc. unfold HeliusClient.get_token_metadata, metadata_url in *.
  apply str_truthy_spec in Hk. rewrite Hk. cbn [negb]. cbv zeta. rewrite Hc.
  unfold try_except. cbn [res_bind].
  match goal with |- match ?b with _ => _ end = _ => destruct b as [e|o] end;
    [now destruct e|reflexivity].
Qed.

Lemma res_bind_inr {A B} (m : res A) (k : A -> res B) (b : B) :
  res_bind m k = inr b -> exists a, m = inr a /\ k a = inr b.
Proof. destruct m as [e|a]; cbn; [discriminate|eauto]. Qed.

Lemma caught_as_none {A} (body : res (option A)) (a : A) :
  match body with inl _ => inr None | inr o => inr o end = (inr (Some a) : res (option A)) ->
  body = inr (Some a).
Proof. destruct body as [e|o]; [discriminate|]. now intros [= ->]. Qed.

Lemma dict_get_dict d k : dict_get (JDict d) k = inr (default JNull (d !! k)).
Proof. reflexivity. Qed.

(** X18: what [get_token_metadata] makes of a response that is a dict:
    metadata it returns is for the mint asked for; a top-level "uri" that
    is a string and not empty is the URI; when the top-level "uri" is
    missing or false, the URI is that of the dict under "metadata", if
    any; and when then "metadata" is there and is no dict (as for null),
    there is no metadata at all. *)
Theorem get_token_metadata_uri (c : HeliusClient.t) (mint : string)
    (d : gmap string json) :
  HeliusClient.api_key c <> "" ->
  HeliusClient.client c (metadata_url c mint) (HeliusClient.api_key c) = inr (JDict d) ->
  (forall md, HeliusClient.get_token_metadata c mint = inr (Some md) ->
     TokenMetadata.mint md = mint /\
     (forall u, d !! "uri" = Some (JStr u) -> u <> "" -> TokenMetadata.uri md = Some u) /\
     (truthy (default JNull (d !! "uri")) = false ->
      exists m,
        default (JDict ∅) (d !! "metadata") = JDict m /\
        TokenMetadata.uri md =
          match m !! "uri" with
          | Some (JStr u) => Some u
          | _ => None
          end)) /\
  (truthy (default JNull (d !! "uri")) = false ->
   forall v, d !! "metadata" = Some v -> (forall m, v <> JDict m) ->
     HeliusClient.get_token_metadata c mint = inr None).
Proof.
  intros Hk Hc. rewrite (get_token_metadata_dict c mint d Hk Hc). cbv zeta. split.
  - intros md H. apply caught_as_none in H.
    apply res_bind_inr in H as (name & _ & H).
    apply res_bind_inr in H as (symbol & _ & H).
    apply res_bind_inr in H as (uri & Huri & H).
    apply res_bind_inr in H as (creator & _ & H).
    apply res_bind_inr in H as (name' & _ & H).
    apply res_bind_inr in H as (symbol' & _ & H).
    apply res_bind_inr in H as (uri' & Hv & H).
    apply res_bind_inr in H as (creator' & _ & H).
    injection H as <-. cbn [TokenMetadata.mint TokenMetadata.uri].
    rewrite dict_get_dict in Huri. cbn [res_bind] in Huri. unfold py_or in Huri.
    split; [reflexivity|]. split.
    + intros u Hdu Hne. rewrite Hdu in Huri. cbn in Huri.
      apply String.eqb_neq in Hne. rewrite Hne in Huri. cbn in Huri.
      injection Huri as <-. cbn in Hv. unfold raise in Hv. congruence.
    + intros Ht. rewrite Ht in Huri. unfold dict_get_default in Huri.
      destruct (default (JDict ∅) (d !! "metadata")) as [| | | | | |m] eqn:Hm;
        cbn in Huri; try discriminate.
      exists m. split; [reflexivity|]. injection Huri as <-.
      destruct (m !! "uri") as [[| | | | | |]|]; cbn in Hv; unfold raise in Hv; congruence.
  - intros Ht v Hv Hnd. rewrite !dict_get_dict. cbn [res_bind]. unfold py_or at 1.
    rewrite Ht. unfold dict_get_default. rewrite Hv. cbn [default].
    destruct v; cbn; try reflexivity. now destruct (Hnd d0).
Qed.

(** ** Lamports and SOL *)

Lemma representable_small_int (k : Z) :
  (Z.abs k < 2 ^ 53)%Z -> representable (inject_Z k).
Proof.
  intros Hk. exists k, 0%Z. split; [exact Hk|]. split; [lia|].
  cbn. now rewrite Qmult_1_r.
Qed.

Lemma whole_sol_quotient (k : Z) :
  (inject_Z (k * 1000000000) / inject_Z 1000000000 == inject_Z k)%Q.
Proof.
  unfold Qeq, Qdiv, Qmult, Qinv, inject_Z. cbn. lia.
Qed.

Lemma monotone_proper rnd x y : monotone rnd -> (x == y)%Q -> (rnd x == rnd y)%Q.
Proof.
  intros Hm E. apply Qle_antisym; apply Hm; rewrite E; apply Qle_refl.
Qed.


(** ** The files of the mints *)

Lemma append_right_cancel s t u : s +:+ u = t +:+ u -> s = t.
Proof.
  revert t. induction s as [|c s IH]; intros t H.
  - destruct t as [|c' t]; [reflexivity|]. exfalso.
    apply (f_equal String.length) in H. rewrite !length_append in H. cbn in H. lia.
  - destruct t as [|c' t].
    + exfalso. apply (f_equal String.length) in H. rewrite !length_append in H.
      cbn in H. lia.
    + rewrite !append_cons in H. injection H as -> H. f_equal. now apply IH.
Qed.

Lemma mint_file_default mint :
  mint_file (Storage.__init__ "data") mint =
    if startswith (mint +:+ ".json") "/" then mint +:+ ".json"
    else "data/transactions/" +:+ mint +:+ ".json".
Proof.
  unfold mint_file, path_join. cbn [Storage.__init__ Storage.transactions_dir].
  change (path_join "data" "transactions") with "data/transactions".
  unfold path_join. destruct (startswith (mint +:+ ".json") "/"); reflexivity.
Qed.

Lemma startswith_slash x : startswith (String "/" x) "/" = true.
Proof.
  unfold startswith. cbn. destruct (ascii_dec "/" "/") as [_|H]; [|now destruct H].
  now destruct x.
Qed.


(** ** Replaying a transaction *)

Lemma cached_twice r s : cached r (cached r s) = cached r s.
Proof.
  unfold cached, Storage.set_results_cache. cbn. f_equal. apply insert_insert_eq.
Qed.

Lemma save_result_twice r w w1 :
  save_result r w = (w1, inr tt) -> save_result r w1 = (w1, inr tt).
Proof.
  rewrite !save_result_spec. destruct (writable (fs w) _) eqn:Hw; intros [= <-]; cbn.
  - rewrite Hw. rewrite cached_twice. rewrite !insert_insert_eq. reflexivity.
  - rewrite Hw. now rewrite cached_twice.
Qed.


Lemma analyze_token_times rnd self mint transactions current_tx r :
  _analyze_token rnd self mint transactions current_tx = inr r ->
  ScamDetectionResult.last_updated r = Some (HeliusTransaction.timestamp current_tx) /\
  exists t,
    ScamDetectionResult.first_seen r = Some t /\
    ((transactions = [] /\ t = HeliusTransaction.timestamp current_tx) \/
     earliest (map HeliusTransaction.timestamp transactions) t).
Proof.
  unfold _analyze_token.
  destruct (_check_bundle_pattern transactions) as [has_bundle bundle_gap].
  destruct (_check_large_purchase rnd transactions) as [has_large max_sol].
  destruct (check_metadata_url_total self mint) as [invalid_metadata ->].
  cbn [res_bind].
  assert (Hmin : exists t,
            match map HeliusTransaction.timestamp transactions with
            | [] => HeliusTransaction.timestamp current_tx
            | t :: ts => py_min t ts
            end = t /\
            ((transactions = [] /\ t = HeliusTransaction.timestamp current_tx) \/
             earliest (map HeliusTransaction.timestamp transactions) t)).
  { destruct transactions as [|x l]; cbn.
    - eexists. split; [reflexivity|]. now left.
    - eexists. split; [reflexivity|]. right. apply py_min_earliest. }
  destruct Hmin as (t & Ht & Hspec).
  destruct has_bundle, has_large, invalid_metadata, (_check_mint_suffix mint);
    intros [= <-]; cbn; (split; [reflexivity|]); exists t; (split; [now rewrite Ht|exact Hspec]).
Qed.

(** X22: when the transaction is new to the log of the mint, the result of
    the pass counts one transaction more than the log held, its
    [last_updated] is the transaction's timestamp, and its [first_seen] is
    not after it nor after the timestamp of any transaction of the log. *)
Theorem analyze_mint_new_transaction (rnd : Q -> Q) (self : ScamDetector.t)
    (tx : HeliusTransaction.t) (mint : string)
    (results rs : list ScamDetectionResult.t) (l : list HeliusTransaction.t)
    (w w' : World) :
  log_of w mint = Some l ->
  existsb (has_signature (HeliusTransaction.signature tx)) l = false ->
  analyze_mint rnd self tx mint results w = (w', inr rs) ->
  exists r t,
    rs = results ++ [r] /\
    ScamDetectionResult.total_transactions r = (Z.of_nat (length l) + 1)%Z /\
    ScamDetectionResult.last_updated r = Some (HeliusTransaction.timestamp tx) /\
    ScamDetectionResult.first_seen r = Some t /\
    (t <= HeliusTransaction.timestamp tx)%Z /\
    (forall x, In x l -> (t <= HeliusTransaction.timestamp x)%Z).
Proof.
  intros Hl Hex H.
  apply analyze_mint_inv in H as (v1 & log & r & Hadd & Hget & Hr & _ & ->).
  destruct (add_then_read mint tx w v1 l Hl Hadd) as [(Hex' & _)|(_ & Hget')];
    [congruence|].
  rewrite Hget in Hget'. injection Hget' as ->.
  pose proof (analyze_token_mint _ _ _ _ _ _ Hr) as [_ Htotal].
  destruct (analyze_token_times _ _ _ _ _ _ Hr) as (Hlast & t & Hfirst & Hspec).
  exists r, t. split; [reflexivity|]. split.
  { rewrite Htotal, length_app. cbn. lia. }
  split; [exact Hlast|]. split; [exact Hfirst|].
  destruct Hspec as [[Hnil _]|[_ Hle]]; [now destruct l|].
  split.
  - apply Hle. rewrite map_app. apply in_app_iff. right. now left.
  - intros x Hx. apply Hle. rewrite map_app. apply in_app_iff. left. now apply in_map.
Qed.

(** * The further properties at sample inputs *)

Lemma has_bundle_persists_witness :
  fst (_check_bundle_pattern (bundle_of_two ++ one_more)) = true.
Proof.
  apply (has_bundle_persists bundle_of_two one_more). reflexivity.
Defined.



Lemma add_transaction_extends_log_witness :
  exists l,
    log_of w0 "Mpump" = Some l /\
    (mint_file_content w0 "Mpump" = Some Unparsable -> l = []) /\
    (get_token_transactions "Mpump" (fst (add_transaction "Mpump" txA w0))
       = (fst (add_transaction "Mpump" txA w0), inr l) /\
       existsb (has_signature (HeliusTransaction.signature txA)) l = true /\
       fst (add_transaction "Mpump" txA w0) = w0
     \/
     get_token_transactions "Mpump" (fst (add_transaction "Mpump" txA w0))
       = (fst (add_transaction "Mpump" txA w0), inr (l ++ [txA])) /\
       existsb (has_signature (HeliusTransaction.signature txA)) l = false /\
       mint_file_content (fst (add_transaction "Mpump" txA w0)) "Mpump"
         = Some (Parsable (TxList (l ++ [txA])))).
Proof.
  apply (add_transaction_extends_log "Mpump" txA w0 (fst (add_transaction "Mpump" txA w0))).
  vm_compute. reflexivity.
Defined.


Lemma saved_results_survive_restart_witness :
  initialize makedirs_ok
    (restarted "data" (fst (save_result (returned after_txA) w0)))
  = (fst (save_result (returned after_txA) w0), inr tt) /\
  Storage._results_cache (storage (fst (save_result (returned after_txA) w0)))
  = <[ScamDetectionResult.mint (returned after_txA) := returned after_txA]> ∅.
Proof.
  apply (saved_results_survive_restart makedirs_ok "data" ∅ (returned after_txA) w0).
  - reflexivity.
  - reflexivity.
  - reflexivity.
  - reflexivity.
  - vm_compute. reflexivity.
Defined.

Lemma initialize_tolerates_bad_file_witness :
  initialize makedirs_ok
    (with_file "data/scam_results.json" (TxList [txA]) w0)
  = (with_file "data/scam_results.json" (TxList [txA]) w0, inr tt).
Proof.
  apply (initialize_tolerates_bad_file makedirs_ok
           (with_file "data/scam_results.json" (TxList [txA]) w0)).
  - reflexivity.
  - reflexivity.
  - intros d. vm_compute. discriminate.
Defined.

Lemma fresh_files_unique can_write : files_unique (fresh_world can_write).
Proof. intros p l H. cbn in H. rewrite lookup_empty in H. discriminate. Qed.

Lemma fresh_cache_ok can_write : cache_ok (fresh_world can_write).
Proof. intros k r H. cbn in H. rewrite lookup_empty in H. discriminate. Qed.

Lemma analyze_transaction_keeps_store_witness :
  files_unique (fst (analyze_transaction exact sample_detector txA w0)) /\
  cache_ok (fst (analyze_transaction exact sample_detector txA w0)).
Proof.
  apply (analyze_transaction_keeps_store exact sample_detector txA w0 _
           (snd (analyze_transaction exact sample_detector txA w0))).
  - apply fresh_files_unique.
  - apply fresh_cache_ok.
  - apply surjective_pairing.
Defined.


Lemma analyze_transaction_results_witness :
  map ScamDetectionResult.mint
    (results_of (analyze_transaction exact sample_detector txA w0))
  = _extract_mints txA /\
  (forall r, In r (results_of (analyze_transaction exact sample_detector txA w0)) ->
     Storage._results_cache
       (storage (fst (analyze_transaction exact sample_detector txA w0)))
       !! ScamDetectionResult.mint r = Some r /\
     (1 <= ScamDetectionResult.total_transactions r)%Z /\
     exists log,
       existsb (has_signature (HeliusTransaction.signature txA)) log = true /\
       _analyze_token exact sample_detector (ScamDetectionResult.mint r) log txA = inr r).
Proof.
  apply (analyze_transaction_results exact sample_detector txA w0).
  vm_compute. reflexivity.
Defined.


Lemma webhook_handler_filters_witness :
  webhook_handler exact sample_validate sample_detector (inr filtered_batch) w0
  = (w0, inr (Responded
                {| status := "success";
                   total_received := Z.of_nat (length (batch_of filtered_batch));
                   processed := 0;
                   filtered_out := Z.of_nat (length (batch_of filtered_batch));
                   tokens_analyzed := 0 |})).
Proof.
  apply (webhook_handler_filters exact sample_validate sample_detector filtered_batch w0).
  repeat constructor.
Defined.

Lemma webhook_handler_accepts_witness :
  webhook_handler exact sample_validate sample_detector (inr (JDict pump_swap)) w0
  = (fst (analyze_transaction exact sample_detector txA w0),
     inr (Responded
            match snd (analyze_transaction exact sample_detector txA w0) with
            | inr results =>
                {| status := "success"; total_received := 1; processed := 1;
                   filtered_out := 0;
                   tokens_analyzed := Z.of_nat (length results) |}
            | inl _ =>
                {| status := "success"; total_received := 1; processed := 0;
                   filtered_out := 1; tokens_analyzed := 0 |}
            end)).
Proof.
  apply (webhook_handler_accepts exact sample_validate sample_detector pump_swap txA w0).
  - vm_compute. reflexivity.
  - vm_compute. reflexivity.
  - vm_compute. reflexivity.
  - apply surjective_pairing.
Defined.

Lemma get_token_metadata_uri_witness :
  HeliusClient.get_token_metadata (answering_client (JDict two_uris)) "Mpump"
  = inr (Some {| TokenMetadata.mint := "Mpump";
                 TokenMetadata.name := None;
                 TokenMetadata.symbol := None;
                 TokenMetadata.uri := Some "https://ipfs.io/a";
                 TokenMetadata.creator := None |}) /\
  TokenMetadata.uri
    {| TokenMetadata.mint := "Mpump";
       TokenMetadata.name := None;
       TokenMetadata.symbol := None;
       TokenMetadata.uri := Some "https://ipfs.io/a";
       TokenMetadata.creator := None |} = Some "https://ipfs.io/a".
Proof.
  split; [vm_compute; reflexivity|].
  apply (get_token_metadata_uri (answering_client (JDict two_uris)) "Mpump" two_uris).
  - discriminate.
  - reflexivity.
  - vm_compute. reflexivity.
  - vm_compute. reflexivity.
  - discriminate.
Defined.



Lemma analyze_mint_new_transaction_witness :
  exists r t,
    [returned after_txA] = [] ++ [r] /\
    ScamDetectionResult.total_transactions r = (Z.of_nat (length (@nil HeliusTransaction.t)) + 1)%Z /\
    ScamDetectionResult.last_updated r = Some (HeliusTransaction.timestamp txA) /\
    ScamDetectionResult.first_seen r = Some t /\
    (t <= HeliusTransaction.timestamp txA)%Z /\
    (forall x, In x (@nil HeliusTransaction.t) -> (t <= HeliusTransaction.timestamp x)%Z).
Proof.
  apply (analyze_mint_new_transaction exact sample_detector txA "Mpump" [] _ [] w0
           (fst after_txA)).
  - vm_compute. reflexivity.
  - reflexivity.
  - vm_compute. reflexivity.
Defined.
